(** * Expiry-date tracker: storage layer and inventory lifecycle

    A shallow embedding of [app.py]: the atomic store ([DataManager]),
    the inventory service ([InventoryService]) and the category
    registry ([CategoryService]), with the properties of the
    specification stated over them.

    Conventions of the embedding.
    - A JSON value loaded by [json.load] is a [pyval]; a record (an item,
      a category) is a Python [dict] with string keys, modelled as a
      [gmap string pyval].  JSON numbers are integers here: the
      application never writes a float into its documents.
    - A [str] is the string of the bytes of its UTF-8 encoding: equality
      and the order by code point are equality and the order of these
      strings.  The library functions that consult the Unicode character
      database - the [\d] of [strptime] and [str.lower] - are embedded on
      ASCII text ([ascii_string]); the statements that depend on them take
      ASCII dates and names.
    - A collection file is absent, or holds a JSON array of objects, or
      is one [DataManager.load] gives up on.
    - A Python exception is a value of [exn]; a computation that may
      raise returns a [result].
    - The wall clock is an input: every [datetime.now()] of the source is
      a [datetime] argument of the model. *)

From Stdlib Require Import ZArith NArith String Ascii List Bool Lia Sorted.
From stdpp Require Import base option list gmap strings fin_maps.

Open Scope string_scope.
Open Scope list_scope.
Open Scope Z_scope.

(** ** Python values *)

#[local] Unset Elimination Schemes.
Inductive pyval : Type :=
  | PNone
  | PBool (b : bool)
  | PInt (n : Z)
  | PStr (s : string)
  | PList (l : list pyval)
  | PDict (d : list (string * pyval)).
#[local] Set Elimination Schemes.

Abbreviation item := (gmap string pyval).

Inductive exn : Type :=
  | KeyError
  | TypeError
  | ValueError
  | OverflowError
  | AttributeError
  | OSError.

Inductive result (A : Type) : Type :=
  | Ok (a : A)
  | Raise (e : exn).
Arguments Ok {A} a.
Arguments Raise {A} e.

#[global] Instance result_ret : MRet result := fun _ a => Ok a.
#[global] Instance result_bind : MBind result := fun _ _ k r =>
  match r with
  | Ok a => k a
  | Raise e => Raise e
  end.

(** [bool(v)]: the truth value Python gives a JSON value. *)
Definition py_truthy (v : pyval) : bool :=
  match v with
  | PNone => false
  | PBool b => b
  | PInt n => negb (n =? 0)
  | PStr s => negb (String.eqb s "")
  | PList l => match l with [] => false | _ => true end
  | PDict d => match d with [] => false | _ => true end
  end.

(** [a == b] on JSON values: numbers and booleans compare by value
    ([True == 1]), sequences elementwise, objects key by key whatever the
    order of the keys. *)
Fixpoint assoc_get {V : Type} (k : string) (d : list (string * V)) : option V :=
  match d with
  | [] => None
  | (k', v) :: d' => if String.eqb k k' then Some v else assoc_get k d'
  end.

Fixpoint py_eq (a b : pyval) {struct a} : bool :=
  match a, b with
  | PNone, PNone => true
  | PBool x, PBool y => Bool.eqb x y
  | PBool x, PInt n => Z.b2z x =? n
  | PInt n, PBool y => n =? Z.b2z y
  | PInt n, PInt m => n =? m
  | PStr s, PStr t => String.eqb s t
  | PList l, PList m =>
      (fix go (l : list pyval) (m : list pyval) {struct l} : bool :=
         match l, m with
         | [], [] => true
         | x :: l', y :: m' => py_eq x y && go l' m'
         | _, _ => false
         end) l m
  | PDict d, PDict e =>
      Nat.eqb (length d) (length e) &&
      (fix go (d : list (string * pyval)) {struct d} : bool :=
         match d with
         | [] => true
         | (k, v) :: d' =>
             match assoc_get k e with
             | Some w => py_eq v w && go d'
             | None => false
             end
         end) d
  | _, _ => false
  end.

(** [d[k]]: indexing raises [KeyError] on a missing key; [d.get(k)]
    gives [None] instead. *)
Definition getitem (d : item) (k : string) : result pyval :=
  match d !! k with
  | Some v => Ok v
  | None => Raise KeyError
  end.

Definition get (d : item) (k : string) : pyval :=
  match d !! k with
  | Some v => v
  | None => PNone
  end.

(** [a < b] where [b] is a [str]: defined between strings only, by code
    point; any other left operand raises [TypeError]. *)
Definition py_lt_str (a : pyval) (b : string) : result bool :=
  match a with
  | PStr s => Ok (String.ltb s b)
  | _ => Raise TypeError
  end.

(** ** Calendar dates (the part of [datetime] the program uses) *)

Record datetime : Type := mkDatetime {
  year : Z;
  month : Z;
  day : Z;
  micros : N            (* microseconds since midnight *)
}.

Definition is_leap (y : Z) : bool :=
  (y mod 4 =? 0) && (negb (y mod 100 =? 0) || (y mod 400 =? 0)).

Definition days_in_month (y m : Z) : Z :=
  if (m =? 2) && is_leap y then 29
  else nth (Z.to_nat m) [0; 31; 28; 31; 30; 31; 30; 31; 31; 30; 31; 30; 31] 0.

Definition days_before_month (y m : Z) : Z :=
  nth (Z.to_nat m) [0; 0; 31; 59; 90; 120; 151; 181; 212; 243; 273; 304; 334] 0
  + (if (2 <? m) && is_leap y then 1 else 0).

Definition days_before_year (y : Z) : Z :=
  let y1 := y - 1 in y1 * 365 + y1 / 4 - y1 / 100 + y1 / 400.

Definition ymd2ord (y m d : Z) : Z :=
  days_before_year y + days_before_month y m + d.

Definition MAXORDINAL : Z := 3652059.   (* date(9999, 12, 31).toordinal() *)

Definition toordinal (t : datetime) : Z := ymd2ord (year t) (month t) (day t).

(** A point in time as (proleptic ordinal day, microsecond of the day):
    the order of two [datetime]s is the lexicographic order of these. *)
Definition instant : Type := Z * N.

Definition to_instant (t : datetime) : instant := (toordinal t, micros t).

Definition instant_lt (a b : instant) : bool :=
  (a.1 <? b.1) || ((a.1 =? b.1) && (a.2 <? b.2)%N).

(** [t + timedelta(days=n)]; leaving the range of [date] raises
    [OverflowError]. *)
Definition add_days (a : instant) (n : Z) : result instant :=
  let o := a.1 + n in
  if (1 <=? o) && (o <=? MAXORDINAL) then Ok (o, a.2) else Raise OverflowError.

(** [strftime('%Y-%m-%d')] *)
Definition digit (n : Z) : ascii := ascii_of_nat (48 + Z.to_nat (n mod 10)).

Definition pad2 (n : Z) : string :=
  String (digit (n / 10)) (String (digit n) "").

Definition pad4 (n : Z) : string :=
  String (digit (n / 1000)) (String (digit (n / 100)) (pad2 n)).

Definition strftime_ymd (t : datetime) : string :=
  (pad4 (year t) ++ "-" ++ pad2 (month t) ++ "-" ++ pad2 (day t))%string.

(** [datetime.strptime(v, '%Y-%m-%d')], for [v] an ASCII string or no
    string at all ([\d] also matches the decimal digits of other
    scripts, which are not embedded).  The format compiles to the
    regular expression
    [(?P<Y>\d\d\d\d)-(?P<m>1[0-2]|0[1-9]|[1-9])-(?P<d>3[0-1]|[1-2]\d|0[1-9]|[1-9]| [1-9])];
    each group below lists its matches in the order the alternatives are
    tried, with the rest of the input. *)
Definition digit_val (c : ascii) : option Z :=
  let n := Z.of_nat (nat_of_ascii c) in
  if (48 <=? n) && (n <=? 57) then Some (n - 48) else None.

Definition re_Y (s : string) : list (Z * string) :=
  match s with
  | String a (String b (String c (String d r))) =>
      match digit_val a, digit_val b, digit_val c, digit_val d with
      | Some x, Some y, Some z, Some w => [(x * 1000 + y * 100 + z * 10 + w, r)]
      | _, _, _, _ => []
      end
  | _ => []
  end.

Definition re_dash (s : string) : list (unit * string) :=
  match s with
  | String c r => if Ascii.eqb c "-" then [(tt, r)] else []
  | _ => []
  end.

Definition two_digits (s : string) : option (Z * Z * string) :=
  match s with
  | String a (String b r) =>
      match digit_val a, digit_val b with
      | Some x, Some y => Some (x, y, r)
      | _, _ => None
      end
  | _ => None
  end.

Definition one_digit (s : string) : option (Z * string) :=
  match s with
  | String a r => match digit_val a with Some x => Some (x, r) | None => None end
  | _ => None
  end.

Definition re_m (s : string) : list (Z * string) :=
  match two_digits s with
  | Some (x, y, r) =>
      if ((x =? 1) && (y <=? 2)) || ((x =? 0) && (1 <=? y)) then [(x * 10 + y, r)] else []
  | None => []
  end ++
  match one_digit s with
  | Some (x, r) => if 1 <=? x then [(x, r)] else []
  | None => []
  end.

Definition re_d (s : string) : list (Z * string) :=
  match two_digits s with
  | Some (x, y, r) =>
      if ((x =? 3) && (y <=? 1)) || ((1 <=? x) && (x <=? 2)) || ((x =? 0) && (1 <=? y))
      then [(x * 10 + y, r)] else []
  | None => []
  end ++
  match one_digit s with
  | Some (x, r) => if 1 <=? x then [(x, r)] else []
  | None => []
  end ++
  match s with
  | String c r =>
      if Ascii.eqb c " " then
        match one_digit r with
        | Some (x, r') => if 1 <=? x then [(x, r')] else []
        | None => []
        end
      else []
  | _ => []
  end.

(** The first match of the whole expression, alternatives tried in
    order with backtracking. *)
Definition regex_ymd (s : string) : option (Z * Z * Z * string) :=
  head (flat_map (fun '(y, s1) =>
        flat_map (fun '(_, s2) =>
        flat_map (fun '(m, s3) =>
        flat_map (fun '(_, s4) =>
        List.map (fun '(d, s5) => (y, m, d, s5)) (re_d s4))
          (re_dash s3)) (re_m s2)) (re_dash s1)) (re_Y s)).

Definition strptime_ymd (v : pyval) : result instant :=
  match v with
  | PStr s =>
      match regex_ymd s with
      | Some (y, m, d, rest) =>
          if negb (String.eqb rest "") then Raise ValueError   (* unconverted data remains *)
          else if (1 <=? y) && (1 <=? m) && (m <=? 12) && (1 <=? d) && (d <=? days_in_month y m)
          then Ok (ymd2ord y m d, 0%N)
          else Raise ValueError
      | None => Raise ValueError
      end
  | _ => Raise TypeError
  end.

(** ** The store as the services see it

    [DataManager.load] gives the parsed document ([Parsed]), or the
    empty document of the collection when the file is absent ([Missing])
    or when reading it ends in the [IOError] or [JSONDecodeError] that
    [load] catches ([Corrupt]).  Contents on which the services raise -
    bytes that are not UTF-8, JSON of another shape than an array of
    objects - are no state of this store; a statement that promises a
    return asks for an [intact] file.
    [DataManager.save] replaces the document; the [saved] log records
    every call, in order.  The saves of the services succeed here: a save
    that fails is the subject of [DataManager.save] below, and a
    statement about a service that raises is one about the exceptions of
    its own code. *)

Inductive file (A : Type) : Type :=
  | Missing
  | Corrupt
  | Parsed (doc : A).
Arguments Missing {A}.
Arguments Corrupt {A}.
Arguments Parsed {A} doc.

Definition load {A : Type} (empty : A) (f : file A) : A :=
  match f with
  | Parsed doc => doc
  | Missing | Corrupt => empty
  end.

Inductive file_key : Type := Users | Fresh | Expired | Categories.

Record store : Type := mkStore {
  users_json : file (gmap string item);
  fresh_json : file (list item);
  expired_json : file (list item);
  categories_json : file (list item)
}.

Record world : Type := mkWorld {
  disk : store;
  saved : list file_key
}.

Definition save_fresh (doc : list item) (w : world) : world :=
  let s := disk w in
  mkWorld (mkStore (users_json s) (Parsed doc) (expired_json s) (categories_json s))
          (saved w ++ [Fresh]).

Definition save_expired (doc : list item) (w : world) : world :=
  let s := disk w in
  mkWorld (mkStore (users_json s) (fresh_json s) (Parsed doc) (categories_json s))
          (saved w ++ [Expired]).

Definition save_categories (doc : list item) (w : world) : world :=
  let s := disk w in
  mkWorld (mkStore (users_json s) (fresh_json s) (expired_json s) (Parsed doc))
          (saved w ++ [Categories]).

Definition save_users (doc : gmap string item) (w : world) : world :=
  let s := disk w in
  mkWorld (mkStore (Parsed doc) (fresh_json s) (expired_json s) (categories_json s))
          (saved w ++ [Users]).

(** [os.path.exists(path)]: an unreadable file exists. *)
Definition path_exists {A : Type} (f : file A) : bool :=
  match f with
  | Missing => false
  | Corrupt | Parsed _ => true
  end.

(** A [for] loop whose body may raise. *)
Fixpoint for_each {A S : Type} (body : S -> A -> result S) (l : list A) (s : S)
  : result S :=
  match l with
  | [] => Ok s
  | x :: l' => s' ← body s x; for_each body l' s'
  end.

(** A list comprehension [[x for x in l if p(x)]] whose condition may
    raise. *)
Fixpoint filter_r {A : Type} (p : A -> result bool) (l : list A) : result (list A) :=
  match l with
  | [] => Ok []
  | x :: l' =>
      b ← p x;
      r ← filter_r p l';
      mret (if b : bool then x :: r else r)
  end.

(** ** InventoryService *)

Module InventoryService.

(** [i.get('owner') == username] *)
Definition owned_by (username : string) (i : item) : bool :=
  py_eq (get i "owner") (PStr username).

(** Self-heal of a missing category, at the head of both loops. *)
Definition self_heal (it : item) (updates_needed : bool) : item * bool :=
  match it !! "category" with
  | None => (<["category" := PStr "General"]> it, true)
  | Some _ => (it, updates_needed)
  end.

(** The body of the [try] of pipeline 1 up to the decision. *)
Definition is_expired (today_str : string) (it : item) : result bool :=
  if py_truthy (get it "expiry_date") then
    v ← getitem it "expiry_date";
    py_lt_str v today_str
  else Ok false.

Record sweep1 : Type := mkSweep1 {
  new_fresh : list item;
  all_expired : list item;
  updates_needed1 : bool
}.

Definition fresh_step (today_str : string) (acc : sweep1) (it : item) : sweep1 :=
  let '(it, dirty) := self_heal it (updates_needed1 acc) in
  match is_expired today_str it with
  | Ok true =>
      mkSweep1 (new_fresh acc)
               (all_expired acc ++ [<["archived_at" := PStr today_str]> it])
               true
  | Ok false => mkSweep1 (new_fresh acc ++ [it]) (all_expired acc) dirty
  | Raise _ => mkSweep1 (new_fresh acc ++ [it]) (all_expired acc) dirty
  end.

(** Pipeline 1: Fresh -> Expired. *)
Definition fresh_pass (today_str : string) (all_fresh all_expired : list item) : sweep1 :=
  fold_left (fresh_step today_str) all_fresh (mkSweep1 [] all_expired false).

(** The [try] of pipeline 2: [true] when the item is kept. *)
Definition within_retention (today_date : instant) (it : item) : result bool :=
  v ← getitem it "expiry_date";
  exp_date ← strptime_ymd v;
  limit ← add_days exp_date 30;
  mret (instant_lt today_date limit).

Definition purge_step (today_date : instant) (acc : list item * bool) (it : item)
  : result (list item * bool) :=
  let '(it, dirty) := self_heal it acc.2 in
  match within_retention today_date it with
  | Ok true => Ok (acc.1 ++ [it], dirty)
  | Ok false => Ok (acc.1, true)
  | Raise ValueError | Raise TypeError => Ok (acc.1, true)
  | Raise e => Raise e
  end.

(** Pipeline 2: purge of the expired list. *)
Definition purge_pass (today_date : instant) (all_expired : list item)
  (updates_needed : bool) : result (list item * bool) :=
  for_each (purge_step today_date) all_expired ([], updates_needed).

Record inventory : Type := mkInventory {
  inv_fresh : list item;
  inv_expired : list item
}.

(** Both pipelines: the new fresh list, the final expired list and the
    dirty flag [updates_needed]. *)
Definition sweep (today_str : string) (today_date : instant) (s : store)
  : result (list item * list item * bool) :=
  let p1 := fresh_pass today_str (load [] (fresh_json s)) (load [] (expired_json s)) in
  '(final_expired, dirty) ← purge_pass today_date (all_expired p1) (updates_needed1 p1);
  mret (new_fresh p1, final_expired, dirty).

(** [now1] and [now2] are the two readings of the clock, for
    [today_str] and [today_date]. *)
Definition get_inventory (username : string) (now1 now2 : datetime) (w : world)
  : result inventory * world :=
  match sweep (strftime_ymd now1) (to_instant now2) (disk w) with
  | Raise e => (Raise e, w)
  | Ok (new_fresh, final_expired, updates_needed) =>
      let w' := if updates_needed
                then save_expired final_expired (save_fresh new_fresh w)
                else w in
      (Ok (mkInventory (List.filter (owned_by username) new_fresh)
                       (List.filter (owned_by username) final_expired)), w')
  end.

Section AddItem.
(** [int(t.timestamp() * 1_000_000)] for a clock reading [t]: a
    floating-point computation, left abstract. *)
Variable timestamp_micros : datetime -> Z.

Definition new_item (data : item) (username : string) (now_id now_added : datetime)
  : result item :=
  name ← getitem data "name";
  expiry ← getitem data "expiry_date";
  mret (<["id" := PInt (timestamp_micros now_id)]>
        (<["name" := name]>
        (<["expiry_date" := expiry]>
        (<["category" := default (PStr "General") (data !! "category")]>
        (<["owner" := PStr username]>
        (<["added_at" := PStr (strftime_ymd now_added)]> ∅)))))).

Definition add_item (data : item) (username : string) (now_id now_added : datetime)
  (w : world) : result item * world :=
  match new_item data username now_id now_added with
  | Raise e => (Raise e, w)
  | Ok it => (Ok it, save_fresh (load [] (fresh_json (disk w)) ++ [it]) w)
  end.
End AddItem.

(** [not (i['id'] == item_id and i['owner'] == username)] *)
Definition kept_by_delete (item_id : Z) (username : string) (i : item) : result bool :=
  id ← getitem i "id";
  if py_eq id (PInt item_id) then
    owner ← getitem i "owner";
    mret (negb (py_eq owner (PStr username)))
  else mret true.

Definition delete_item (item_id : Z) (username : string) (w : world)
  : result bool * world :=
  let fresh := load [] (fresh_json (disk w)) in
  match filter_r (kept_by_delete item_id username) fresh with
  | Raise e => (Raise e, w)
  | Ok new_fresh =>
      if negb (Nat.eqb (length new_fresh) (length fresh))
      then (Ok true, save_fresh new_fresh w)
      else (Ok false, w)
  end.

End InventoryService.

(** ** CategoryService *)

Module CategoryService.

Import InventoryService.

Definition system_category (name : string) : item :=
  <["name" := PStr name]> (<["type" := PStr "system"]> ∅).

Definition system_names : list string :=
  ["General"; "Food"; "Medicine"; "Documents"; "Personal Care"].

Definition DEFAULT_CATEGORIES : list item := List.map system_category system_names.

(** The dict [cat_map], in insertion order.  A key must be hashable: a
    list or an object as key raises [TypeError]. *)
Definition hashable (v : pyval) : bool :=
  match v with
  | PList _ | PDict _ => false
  | _ => true
  end.

Definition cat_map_mem (k : pyval) (cat_map : list (pyval * item)) : result bool :=
  if hashable k then Ok (existsb (fun e => py_eq e.1 k) cat_map) else Raise TypeError.

Definition initial_cat_map : list (pyval * item) :=
  List.map (fun name => (PStr name, system_category name)) system_names.

Definition category_step (username : string) (cat_map : list (pyval * item)) (c : item)
  : result (list (pyval * item)) :=
  if owned_by username c then
    name ← getitem c "name";
    present ← cat_map_mem name cat_map;
    mret (if present : bool then cat_map else cat_map ++ [(name, c)])
  else Ok cat_map.

Fixpoint map_r {A B : Type} (f : A -> result B) (l : list A) : result (list B) :=
  match l with
  | [] => Ok []
  | x :: l' => y ← f x; r ← map_r f l'; mret (y :: r)
  end.

Definition as_str (v : pyval) : result string :=
  match v with
  | PStr s => Ok s
  | _ => Raise TypeError
  end.

Fixpoint insert_by_name (k : string) (x : item) (l : list (string * item))
  : list (string * item) :=
  match l with
  | [] => [(k, x)]
  | (k', y) :: l' =>
      if String.ltb k k' then (k, x) :: l else (k', y) :: insert_by_name k x l'
  end.

(** [sorted(values, key=lambda x: x['name'])]: the keys are computed
    first, then compared with [<].  The list always holds the five system
    records, whose names are strings, so a key that is not a string meets
    a string in some comparison and the sort raises [TypeError]; between
    strings the order is by code point, and the sort is stable. *)
Definition sorted_by_name (values : list item) : result (list item) :=
  keys ← map_r (fun x => getitem x "name") values;
  names ← map_r as_str keys;
  mret (List.map snd
          (fold_left (fun acc kx => insert_by_name kx.1 kx.2 acc)
                     (combine names values) [])).

Definition get_categories (username : string) (s : store) : result (list item) :=
  let all_cats := load [] (categories_json s) in
  cat_map ← for_each (category_step username) all_cats initial_cat_map;
  sorted_by_name (List.map snd cat_map).

(** [s.lower()] for an ASCII string [s]: the cased letters of the rest
    of Unicode are not embedded. *)
Definition lower_ascii (c : ascii) : ascii :=
  let n := nat_of_ascii c in
  if Nat.leb 65 n && Nat.leb n 90 then ascii_of_nat (n + 32) else c.

Fixpoint lower (s : string) : string :=
  match s with
  | EmptyString => EmptyString
  | String c r => String (lower_ascii c) (lower r)
  end.

(** [c['name'].lower() == name_lower] *)
Definition name_lower_is (name_lower : string) (c : item) : result bool :=
  n ← getitem c "name";
  match n with
  | PStr s => Ok (String.eqb (lower s) name_lower)
  | _ => Raise AttributeError
  end.

(** The body of the duplicate check of [add_category]: the message of
    the early return, if any. *)
Definition duplicate_of (name_lower username : string) (c : item)
  : result (option string) :=
  sys ← (if py_eq (get c "type") (PStr "system")
         then name_lower_is name_lower c else Ok false);
  if sys : bool then Ok (Some "Category already exists (System)")
  else
    own ← (if owned_by username c then name_lower_is name_lower c else Ok false);
    if own : bool then Ok (Some "Category already exists") else Ok None.

Fixpoint first_duplicate (name_lower username : string) (all_cats : list item)
  : result (option string) :=
  match all_cats with
  | [] => Ok None
  | c :: rest =>
      r ← duplicate_of name_lower username c;
      match r with
      | Some msg => Ok (Some msg)
      | None => first_duplicate name_lower username rest
      end
  end.

Section AddCategory.
Variable timestamp_micros : datetime -> Z.

(** The result is [inl message] for [(False, message)] and
    [inr new_cat] for [(True, new_cat)]. *)
Definition add_category (name username : string) (now : datetime) (w : world)
  : result (string + item) * world :=
  let all_cats := load [] (categories_json (disk w)) in
  match first_duplicate (lower name) username all_cats with
  | Raise e => (Raise e, w)
  | Ok (Some msg) => (Ok (inl msg), w)
  | Ok None =>
      let new_cat : item :=
        <["id" := PInt (timestamp_micros now)]>
        (<["name" := PStr name]>
        (<["type" := PStr "custom"]>
        (<["owner" := PStr username]> ∅))) in
      (Ok (inr new_cat), save_categories (all_cats ++ [new_cat]) w)
  end.
End AddCategory.

(** The records [DataManager.ensure_directory] seeds the categories file
    with: [{"id": f"sys_{idx}", "name": cat["name"], "type": "system",
    "owner": "system"}] for [idx, cat] in [enumerate(DEFAULT_CATEGORIES)]. *)
Definition seed_record (idx : nat) (cat : item) : item :=
  <["id" := PStr (String.append "sys_" (String (digit (Z.of_nat idx)) ""))]>
  (<["name" := get cat "name"]>
  (<["type" := PStr "system"]>
  (<["owner" := PStr "system"]> ∅))).

Definition seeded_categories : list item := imap seed_record DEFAULT_CATEGORIES.

(** The search loop of [delete_category]. *)
Definition is_target (name username : string) (c : item) : result bool :=
  n ← getitem c "name";
  mret (py_eq n (PStr name) && py_eq (get c "owner") (PStr username)
        && py_eq (get c "type") (PStr "custom")).

Fixpoint find_r {A : Type} (p : A -> result bool) (l : list A) : result (option A) :=
  match l with
  | [] => Ok None
  | x :: l' => b ← p x; if b : bool then Ok (Some x) else find_r p l'
  end.

(** [item.get('owner') == username and item.get('category') == name] *)
Definition references (name username : string) (it : item) : bool :=
  owned_by username it && py_eq (get it "category") (PStr name).

(** The loop of [migrate_items]: the items after the loop and the flag
    [dirty]. *)
Fixpoint migrate_loop (name username : string) (items : list item) (dirty : bool)
  : list item * bool :=
  match items with
  | [] => ([], dirty)
  | it :: rest =>
      if references name username it then
        let '(rest', dirty') := migrate_loop name username rest true in
        (<["category" := PStr "General"]> it :: rest', dirty')
      else
        let '(rest', dirty') := migrate_loop name username rest dirty in
        (it :: rest', dirty')
  end.

Definition migrate_items (name username : string) (file_key : file_key) (w : world)
  : world :=
  match file_key with
  | Fresh =>
      let '(items, dirty) :=
        migrate_loop name username (load [] (fresh_json (disk w))) false in
      if dirty then save_fresh items w else w
  | Expired =>
      let '(items, dirty) :=
        migrate_loop name username (load [] (expired_json (disk w))) false in
      if dirty then save_expired items w else w
  | _ => w
  end.

Definition delete_category (name username : string) (w : world)
  : result (bool * string) * world :=
  let all_cats := load [] (categories_json (disk w)) in
  match find_r (is_target name username) all_cats with
  | Raise e => (Raise e, w)
  | Ok None => (Ok (false, "Category not found or permission denied."), w)
  | Ok (Some cat_to_del) =>
      match filter_r (fun c => a ← getitem c "id"; b ← getitem cat_to_del "id";
                               mret (negb (py_eq a b))) all_cats with
      | Raise e => (Raise e, w)
      | Ok all_cats' =>
          let w1 := save_categories all_cats' w in
          let w2 := migrate_items name username Fresh w1 in
          let w3 := migrate_items name username Expired w2 in
          (Ok (true, "Success"), w3)
      end
  end.

End CategoryService.

(** ** DataManager.save on the file system

    The file system maps a path to the text of the file.  [tmp] is the
    name [NamedTemporaryFile] picks; [fault] says where the write fails,
    if it does, and what had reached the files by then.  Whatever its
    class, the exception of a fault is written [OSError]: [save] raises
    again the exception it caught.  The [os.remove] of the handler is
    taken to succeed. *)

Module DataManager.

Inductive fault : Type :=
  | NoFault
  | AtCreate                       (* the temporary file cannot be created *)
  | AtDump (written : string)      (* [json.dump] raises *)
  | AtFlush (written : string)     (* [tmp_file.flush()] raises *)
  | AtFsync                        (* [os.fsync] raises *)
  | AtMove (left : option string).
      (* [shutil.move] raises: [os.rename] failed, and so did the copy
         onto [filepath] that [shutil.move] falls back to; [left] is the
         text the copy had put into the target, if it had opened it *)

(** The [try] block: its outcome, the file system it leaves, and the
    local [temp_name] if the assignment was reached. *)
Definition save_try (tmp : string) (flt : fault) (filepath text : string)
  (fs : gmap string string) : result unit * gmap string string * option string :=
  match flt with
  | AtCreate => (Raise OSError, fs, None)
  | AtDump written => (Raise OSError, <[tmp := written]> fs, None)
  | AtFlush written => (Raise OSError, <[tmp := written]> fs, Some tmp)
  | AtFsync => (Raise OSError, <[tmp := text]> fs, Some tmp)
  | AtMove None => (Raise OSError, <[tmp := text]> fs, Some tmp)
  | AtMove (Some partial) =>
      (Raise OSError, <[filepath := partial]> (<[tmp := text]> fs), Some tmp)
  | NoFault => (Ok tt, <[filepath := text]> (delete tmp (<[tmp := text]> fs)), Some tmp)
  end.

(** The whole of [save], with the [except] handler:
    [if 'temp_name' in locals() and os.path.exists(temp_name): os.remove(temp_name)],
    then the exception is raised again. *)
Definition save (tmp : string) (flt : fault) (filepath text : string)
  (fs : gmap string string) : result unit * gmap string string :=
  let '(r, fs1, temp_name) := save_try tmp flt filepath text fs in
  match r with
  | Ok _ => (Ok tt, fs1)
  | Raise e =>
      match temp_name with
      | Some n => (Raise e, if bool_decide (is_Some (fs1 !! n)) then delete n fs1 else fs1)
      | None => (Raise e, fs1)
      end
  end.

(** [ensure_directory], on the store of the services: for each file of
    [FILES], in the order users, fresh, expired, categories, a file that
    does not exist is saved with its initial document - the empty
    mapping, the empty list, or the seeded system categories.  (The
    creation of the directory itself is outside the store; a save that
    fails is the subject of [save] above.) *)
Definition ensure_directory (w : world) : world :=
  let w1 := if path_exists (users_json (disk w)) then w else save_users ∅ w in
  let w2 := if path_exists (fresh_json (disk w1)) then w1 else save_fresh [] w1 in
  let w3 := if path_exists (expired_json (disk w2)) then w2 else save_expired [] w2 in
  if path_exists (categories_json (disk w3)) then w3
  else save_categories CategoryService.seeded_categories w3.

End DataManager.

(** * Notions of the specification *)

Import InventoryService CategoryService.

(** "[expiry_date] is present and lexicographically less than today":
    a date is present when the record holds a non-empty string for it
    (null and the empty string are no date, as in the validation of a
    new item). *)
Definition lex_expired (today_str : string) (it : item) : bool :=
  match it !! "expiry_date" with
  | Some (PStr s) => negb (String.eqb s "") && String.ltb s today_str
  | _ => false
  end.

Definition lacks_category (it : item) : bool :=
  match it !! "category" with
  | None => true
  | Some _ => false
  end.

(** The record after the self-heal of step 2 / step 4. *)
Definition healed (it : item) : item :=
  if lacks_category it then <["category" := PStr "General"]> it else it.

Definition archived (today_str : string) (it : item) : item :=
  <["archived_at" := PStr today_str]> it.


(** [true] when the purge keeps the record. *)
Definition kept (today_date : instant) (it : item) : bool :=
  match within_retention today_date it with
  | Ok true => true
  | _ => false
  end.

(** [true] when the purge lets the exception of the record escape. *)
Definition escapes (today_date : instant) (it : item) : bool :=
  match within_retention today_date it with
  | Raise KeyError | Raise OverflowError | Raise AttributeError | Raise OSError => true
  | _ => false
  end.

(** "The item matches both the given id and [owner == username]". *)
Definition targeted (item_id : Z) (username : string) (i : item) : bool :=
  py_eq (get i "id") (PInt item_id) && py_eq (get i "owner") (PStr username).

(** The record has the fields the filter of [delete_item] indexes:
    ['id'], and ['owner'] when the id is the given one. *)
Definition readable (item_id : Z) (i : item) : bool :=
  match i !! "id" with
  | None => false
  | Some v =>
      if py_eq v (PInt item_id)
      then match i !! "owner" with Some _ => true | None => false end
      else true
  end.

(** What the loop of [get_categories] maintains: [cat_map] is the
    system seed followed by records filed under their own name, a name
    equal to no system name. *)
Definition filed (e : pyval * item) : Prop :=
  e.2 !! "name" = Some e.1 /\
  forall n, In n system_names -> py_eq (PStr n) e.1 = false.

Definition seed_then_filed (cat_map : list (pyval * item)) : Prop :=
  exists extra, cat_map = initial_cat_map ++ extra /\ Forall filed extra.

(** Every record the user owns has a string for name. *)
Definition named (username : string) (c : item) : Prop :=
  owned_by username c = true -> exists s, c !! "name" = Some (PStr s).

Definition str_keyed (cat_map : list (pyval * item)) : Prop :=
  Forall (fun e => exists s, e.1 = PStr s /\ e.2 !! "name" = Some (PStr s)) cat_map.

(** The record after the migration of [delete_category(name, username)]. *)
Definition migrated (name username : string) (it : item) : item :=
  if references name username it then <["category" := PStr "General"]> it else it.

(** The state [get_inventory] leaves behind: every fresh record has a
    category and a date that is not past, every expired record has a
    category and is within the retention window. *)
Definition tidy (today_str : string) (today_date : instant) (s : store) : Prop :=
  Forall (fun it => lacks_category it = false /\ lex_expired today_str it = false)
         (load [] (fresh_json s)) /\
  Forall (fun it => lacks_category it = false /\ kept today_date it = true)
         (load [] (expired_json s)).

(** The retention limit of the record, [expiry_date + 30 days], is a
    day of the calendar (at most 9999-12-31) whenever the date parses. *)
Definition in_calendar (it : item) : Prop :=
  forall v d, it !! "expiry_date" = Some v -> strptime_ymd v = Ok d ->
              d.1 + 30 <= MAXORDINAL.

(** The record stops [add_category]: it is a system record or one of
    the user's, and its name is the new name up to letter case. *)
Definition collides (name_lower username : string) (c : item) : bool :=
  (py_eq (get c "type") (PStr "system") || owned_by username c) &&
  match c !! "name" with
  | Some (PStr s) => String.eqb (lower s) name_lower
  | _ => false
  end.

(** The records whose name [add_category] reads have a string for it. *)
Definition name_readable (username : string) (c : item) : Prop :=
  py_eq (get c "type") (PStr "system") || owned_by username c = true ->
  exists s, c !! "name" = Some (PStr s).

(** The record is what [delete_category(name, username)] looks for: that
    name, that owner, type custom. *)
Definition deletable (name username : string) (c : item) : bool :=
  py_eq (get c "name") (PStr name) && owned_by username c
  && py_eq (get c "type") (PStr "custom").

(** The order of the sort of [get_categories], on (name, record) pairs. *)
Definition by_key (p q : string * item) : Prop := String.leb p.1 q.1 = true.

(** The fields of a date are those of a calendar day with a four-digit
    year. *)
Definition valid_date (t : datetime) : Prop :=
  1 <= year t <= 9999 /\ 1 <= month t <= 12 /\
  1 <= day t <= days_in_month (year t) (month t).

(** The day of [a] comes before the day of [b]. *)
Definition earlier (a b : datetime) : Prop :=
  year a < year b \/
  (year a = year b /\
   (month a < month b \/ (month a = month b /\ day a < day b))).

(** Text of the ASCII range, on which [strptime_ymd] and [lower] are
    the functions of the library. *)
Fixpoint ascii_string (s : string) : bool :=
  match s with
  | EmptyString => true
  | String c r => Nat.ltb (nat_of_ascii c) 128 && ascii_string r
  end.

Definition ascii_value (v : pyval) : bool :=
  match v with
  | PStr s => ascii_string s
  | _ => true
  end.

(** The [expiry_date] of the record, if it is a string, is ASCII text. *)
Definition ascii_date (it : item) : bool :=
  match it !! "expiry_date" with
  | Some v => ascii_value v
  | None => true
  end.

(** The dates of the two inventory files are ASCII text. *)
Definition ascii_dates (s : store) : bool :=
  forallb ascii_date (load [] (fresh_json s) ++ load [] (expired_json s)).

(** The file is absent or holds a JSON array of objects. *)
Definition intact {A : Type} (f : file A) : bool :=
  match f with
  | Corrupt => false
  | Missing | Parsed _ => true
  end.

(** The records whose name [add_category] reads have an ASCII string
    for it. *)
Definition name_ascii (username : string) (c : item) : Prop :=
  py_eq (get c "type") (PStr "system") || owned_by username c = true ->
  exists s, c !! "name" = Some (PStr s) /\ ascii_string s = true.

(** * Properties *)

(** ** The library functions on examples *)

Example strptime_iso : strptime_ymd (PStr "2024-02-29") = Ok (738945, 0%N).
Proof. reflexivity. Qed.
Example strptime_short : strptime_ymd (PStr "2024-1-5") = Ok (738890, 0%N).
Proof. reflexivity. Qed.
Example strptime_bad_day : strptime_ymd (PStr "2023-02-29") = Raise ValueError.
Proof. reflexivity. Qed.
Example strptime_trailing : strptime_ymd (PStr "2024-01-311") = Raise ValueError.
Proof. reflexivity. Qed.
Example strptime_not_str : strptime_ymd PNone = Raise TypeError.
Proof. reflexivity. Qed.
Example strftime_example :
  strftime_ymd (mkDatetime 2026 11 3 5%N) = "2026-11-03".
Proof. reflexivity. Qed.
Example py_eq_nested :
  py_eq (PDict [("a", PList [PBool true]); ("b", PNone)])
        (PDict [("b", PNone); ("a", PList [PInt 1])]) = true.
Proof. reflexivity. Qed.

(** ** Self-heal *)

Lemma self_heal_healed it d :
  self_heal it d = (healed it, d || lacks_category it).
Proof.
  unfold self_heal, healed, lacks_category.
  destruct (it !! "category"); simpl; [by rewrite orb_false_r | by rewrite orb_true_r].
Qed.

Lemma healed_has_category it : lacks_category (healed it) = false.
Proof.
  unfold healed, lacks_category.
  destruct (it !! "category") eqn:E; [by rewrite E | by rewrite lookup_insert_eq].
Qed.

Lemma healed_fixed it : lacks_category it = false -> healed it = it.
Proof. unfold healed. by intros ->. Qed.

Lemma healed_expiry it : healed it !! "expiry_date" = it !! "expiry_date".
Proof.
  unfold healed. destruct (lacks_category it); [|done].
  by rewrite lookup_insert_ne.
Qed.

Lemma healed_owner it : healed it !! "owner" = it !! "owner".
Proof.
  unfold healed. destruct (lacks_category it); [|done].
  by rewrite lookup_insert_ne.
Qed.

(** ** Pipeline 1 *)

(** The decision of the source agrees with the wording of the
    specification; a comparison that raises counts as not expired. *)
Lemma is_expired_lex today_str it :
  match is_expired today_str it with
  | Ok b => lex_expired today_str it = b
  | Raise _ => lex_expired today_str it = false
  end.
Proof.
  unfold is_expired, lex_expired, get, getitem.
  destruct (it !! "expiry_date") as [[| b | n | s | l | d]|]; simpl; try done.
  - by destruct b.
  - by destruct (n =? 0).
  - by destruct (String.eqb s "").
  - by destruct l.
  - by destruct d.
Qed.

Lemma lex_expired_healed today_str it :
  lex_expired today_str (healed it) = lex_expired today_str it.
Proof. unfold lex_expired. by rewrite healed_expiry. Qed.

Lemma fresh_step_lex today_str acc it :
  fresh_step today_str acc it =
    if lex_expired today_str it
    then mkSweep1 (new_fresh acc)
                  (all_expired acc ++ [archived today_str (healed it)]) true
    else mkSweep1 (new_fresh acc ++ [healed it]) (all_expired acc)
                  (updates_needed1 acc || lacks_category it).
Proof.
  unfold fresh_step. rewrite self_heal_healed.
  pose proof (is_expired_lex today_str (healed it)) as H.
  rewrite lex_expired_healed in H.
  destruct (is_expired today_str (healed it)) as [[|]|e]; by rewrite H.
Qed.

Lemma fresh_pass_from today_str l acc :
  fold_left (fresh_step today_str) l acc =
    mkSweep1
      (new_fresh acc
         ++ List.filter (fun it => negb (lex_expired today_str it)) (List.map healed l))
      (all_expired acc
         ++ List.map (archived today_str)
              (List.filter (lex_expired today_str) (List.map healed l)))
      (updates_needed1 acc || existsb lacks_category l
         || existsb (lex_expired today_str) l).
Proof.
  revert acc. induction l as [|it l IH]; intros acc; simpl.
  - destruct acc. by rewrite !app_nil_r, !orb_false_r.
  - rewrite IH, fresh_step_lex, lex_expired_healed.
    destruct (lex_expired today_str it); simpl.
    + rewrite <- app_assoc. simpl. f_equal. by rewrite orb_true_r.
    + rewrite <- app_assoc. simpl. f_equal.
      by destruct (updates_needed1 acc), (lacks_category it), (existsb lacks_category l).
Qed.

(** Pipeline 1 on its own: a fresh item is appended to the expired
    list, stamped with [archived_at] = today's date string, and the dirty
    flag set, exactly when its [expiry_date] is present and
    lexicographically less than today's date string; every other item,
    among them each one whose comparison raises, stays in the fresh list
    (after the self-heal of its category), in the stored order. *)
Theorem fresh_pass_classification (today_str : string) (all_fresh expired0 : list item)
  (it : item) :
  match is_expired today_str (healed it) with
  | Ok b => lex_expired today_str it = b
  | Raise _ => lex_expired today_str it = false
  end /\
  fresh_step today_str (mkSweep1 [] expired0 false) it =
    (if lex_expired today_str it
     then mkSweep1 [] (expired0 ++ [archived today_str (healed it)]) true
     else mkSweep1 [healed it] expired0 (lacks_category it)) /\
  fresh_pass today_str all_fresh expired0 =
    mkSweep1
      (List.filter (fun i => negb (lex_expired today_str i)) (List.map healed all_fresh))
      (expired0 ++ List.map (archived today_str)
         (List.filter (lex_expired today_str) (List.map healed all_fresh)))
      (existsb lacks_category all_fresh || existsb (lex_expired today_str) all_fresh).
Proof.
  split; [|split].
  - pose proof (is_expired_lex today_str (healed it)) as H.
    by rewrite lex_expired_healed in H.
  - by rewrite fresh_step_lex.
  - unfold fresh_pass. by rewrite fresh_pass_from.
Qed.

(** ** Pipeline 2 *)

Lemma strptime_midnight v x : strptime_ymd v = Ok x -> x.2 = 0%N.
Proof.
  unfold strptime_ymd. destruct v; try discriminate.
  destruct (regex_ymd s) as [[[[y m] d] rest]|]; try discriminate.
  destruct (negb (String.eqb rest "")); try discriminate.
  destruct (_ && _); try discriminate.
  by intros [= <-].
Qed.

Lemma strptime_raises v e :
  strptime_ymd v = Raise e -> e = ValueError \/ e = TypeError.
Proof.
  unfold strptime_ymd. destruct v; try (intros [= <-]; by right).
  destruct (regex_ymd s) as [[[[y m] d] rest]|]; [|intros [= <-]; by left].
  destruct (negb (String.eqb rest "")); [intros [= <-]; by left|].
  destruct (_ && _); [discriminate | intros [= <-]; by left].
Qed.

Lemma instant_lt_midnight a o : instant_lt a (o, 0%N) = (a.1 <? o).
Proof.
  unfold instant_lt. simpl.
  replace (a.2 <? 0)%N with false by (symmetry; apply N.ltb_ge; lia).
  by rewrite andb_false_r, orb_false_r.
Qed.

(** The decision of the purge for a record that has an [expiry_date]:
    it depends on the calendar day of [today_date] only. *)
Lemma within_retention_dated today_date it v :
  it !! "expiry_date" = Some v ->
  within_retention today_date it =
    (exp_date ← strptime_ymd v;
     limit ← add_days exp_date 30;
     mret (today_date.1 <? exp_date.1 + 30)).
Proof.
  intros Hv. unfold within_retention, getitem. rewrite Hv. simpl.
  destruct (strptime_ymd v) as [exp|e] eqn:E; [|done]. simpl.
  unfold add_days. destruct (_ && _); [|done]. simpl.
  unfold mret, result_ret. f_equal.
  rewrite (strptime_midnight _ _ E). apply instant_lt_midnight.
Qed.

Lemma within_retention_undated today_date it :
  it !! "expiry_date" = None -> within_retention today_date it = Raise KeyError.
Proof. intros Hv. unfold within_retention, getitem. by rewrite Hv. Qed.


Lemma within_retention_healed today_date it :
  within_retention today_date (healed it) = within_retention today_date it.
Proof. unfold within_retention, getitem. by rewrite healed_expiry. Qed.

Lemma purge_step_kept today_date acc it :
  purge_step today_date acc it =
    if escapes today_date it then
      match within_retention today_date it with
      | Raise e => Raise e
      | Ok _ => Ok acc
      end
    else if kept today_date it
    then Ok (acc.1 ++ [healed it], acc.2 || lacks_category it)
    else Ok (acc.1, true).
Proof.
  unfold purge_step, escapes, kept. rewrite self_heal_healed, within_retention_healed.
  by destruct (within_retention today_date it) as [[|]|[]].
Qed.

(** X1.  A record with a date - ASCII text, or no string at all - is
    dropped exactly when the date does not parse, or parses to a day [d]
    with [d + 30 <= today]; it is kept when [today < d + 30].  (When
    [d + 30] leaves the calendar the addition raises [OverflowError],
    which the handler does not catch.) *)
Lemma purge_step_dated today_date acc it v :
  it !! "expiry_date" = Some v ->
  ascii_value v = true ->
  purge_step today_date acc it =
    match strptime_ymd v with
    | Raise _ => Ok (acc.1, true)
    | Ok exp_date =>
        match add_days exp_date 30 with
        | Raise e => Raise e
        | Ok _ =>
            if exp_date.1 + 30 <=? today_date.1
            then Ok (acc.1, true)
            else Ok (acc.1 ++ [healed it], acc.2 || lacks_category it)
        end
    end.
Proof.
  intros Hv _. rewrite purge_step_kept. unfold escapes, kept.
  rewrite (within_retention_dated _ _ _ Hv).
  destruct (strptime_ymd v) as [exp|e] eqn:E; simpl.
  - unfold add_days.
    destruct (_ && _); simpl; [|done].
    rewrite Z.leb_antisym. by destruct (today_date.1 <? exp.1 + 30).
  - by destruct (strptime_raises _ _ E) as [-> | ->].
Qed.


(** What the pass returns when no exception escapes. *)
Lemma purge_pass_from today_date l acc res :
  for_each (purge_step today_date) l acc = Ok res ->
  res.1 = acc.1 ++ List.filter (kept today_date) (List.map healed l) /\
  res.2 = acc.2 || existsb (fun it => lacks_category it || negb (kept today_date it)) l.
Proof.
  revert acc. induction l as [|it l IH]; intros acc; simpl.
  - intros [= <-]. by rewrite app_nil_r, orb_false_r.
  - rewrite purge_step_kept.
    assert (kept today_date (healed it) = kept today_date it) as ->.
    { unfold kept. by rewrite within_retention_healed. }
    destruct (escapes today_date it) eqn:Eesc.
    { unfold escapes, kept in *.
      destruct (within_retention today_date it) as [[|]|[]]; try discriminate; done. }
    destruct (kept today_date it); simpl; intros H; apply IH in H as [-> ->]; simpl.
    + rewrite <- app_assoc. split; [done|].
      rewrite orb_false_r. by destruct acc.2, (lacks_category it).
    + split; [done|]. by rewrite !orb_true_r.
Qed.


Lemma filter_all {A : Type} (p : A -> bool) (l : list A) :
  Forall (fun x => p x = true) l -> List.filter p l = l.
Proof.
  induction 1 as [|x l Hx _ IH]; simpl; [done|]. by rewrite Hx, IH.
Qed.

Lemma filter_none {A : Type} (p : A -> bool) (l : list A) :
  Forall (fun x => p x = false) l -> List.filter p l = [].
Proof.
  induction 1 as [|x l Hx _ IH]; simpl; [done|]. by rewrite Hx.
Qed.


Lemma map_fixed {A : Type} (f : A -> A) (l : list A) :
  Forall (fun x => f x = x) l -> List.map f l = l.
Proof.
  induction 1 as [|x l Hx _ IH]; simpl; [done|]. by rewrite Hx, IH.
Qed.

Lemma Forall_filter_map {A B : Type} (f : A -> B) (p : B -> bool) (P : B -> Prop)
  (l : list A) :
  (forall x, p (f x) = true -> P (f x)) -> Forall P (List.filter p (List.map f l)).
Proof.
  intros H. induction l as [|x l IH]; simpl; [constructor|].
  destruct (p (f x)) eqn:E; [constructor; auto | done].
Qed.


(** C1.  The purge of an expired record that has no [expiry_date]:
    [item['expiry_date']] raises [KeyError], which the handler
    [except (ValueError, TypeError)] lets through.  [get_inventory] ends
    with that exception, nothing is saved, and the record stays in the
    persisted expired collection. *)
Theorem purge_missing_date_raises (username : string) (now1 now2 : datetime)
  (it : item) (users : file (gmap string item)) (cats : file (list item)) :
  let w := mkWorld (mkStore users (Parsed []) (Parsed [delete "expiry_date" it]) cats) [] in
  get_inventory username now1 now2 w = (Raise KeyError, w).
Proof.
  intros w. unfold get_inventory, sweep, purge_pass, fresh_pass. simpl.
  rewrite purge_step_kept. unfold escapes.
  rewrite within_retention_undated by apply lookup_delete_eq.
  done.
Qed.

(** The same escape for a date whose retention limit leaves the
    calendar. *)
Lemma purge_overflow_raises (username : string) (now1 now2 : datetime) :
  let it : item := <["expiry_date" := PStr "9999-12-15"]> ∅ in
  let w := mkWorld (mkStore Missing Missing (Parsed [it]) Missing) [] in
  get_inventory username now1 now2 w = (Raise OverflowError, w).
Proof. reflexivity. Qed.

(** ** Two runs on the same day *)






(** ** delete_item *)

Lemma kept_by_delete_ok item_id username i b :
  kept_by_delete item_id username i = Ok b -> b = negb (targeted item_id username i).
Proof.
  unfold kept_by_delete, targeted, getitem, get.
  destruct (i !! "id") as [v|]; simpl; [|done].
  destruct (py_eq v (PInt item_id)); simpl; [|by intros [= <-]].
  destruct (i !! "owner") as [o|]; simpl; [|done]. by intros [= <-].
Qed.

Lemma kept_by_delete_readable item_id username i :
  readable item_id i = true ->
  kept_by_delete item_id username i = Ok (negb (targeted item_id username i)).
Proof.
  unfold readable, kept_by_delete, targeted, getitem, get.
  destruct (i !! "id") as [v|]; simpl; [|done].
  destruct (py_eq v (PInt item_id)); simpl; [|done].
  by destruct (i !! "owner") as [o|].
Qed.

Lemma filter_r_ok {A : Type} (p : A -> result bool) (q : A -> bool) (l r : list A) :
  (forall x b, p x = Ok b -> b = q x) ->
  filter_r p l = Ok r -> r = List.filter q l.
Proof.
  intros Hpq. revert r. induction l as [|x l IH]; intros r; simpl.
  - by intros [= <-].
  - destruct (p x) as [b|e] eqn:Ex; simpl; [|done].
    destruct (filter_r p l) as [r'|e]; simpl; [|done].
    intros [= <-]. rewrite <- (Hpq _ _ Ex), <- (IH r' eq_refl). done.
Qed.

Lemma filter_r_total {A : Type} (p : A -> result bool) (q : A -> bool) (l : list A) :
  Forall (fun x => p x = Ok (q x)) l -> filter_r p l = Ok (List.filter q l).
Proof.
  induction 1 as [|x l Hx _ IH]; simpl; [done|]. by rewrite Hx, IH.
Qed.

Lemma filter_same_length {A : Type} (p : A -> bool) (l : list A) :
  length (List.filter p l) = length l -> existsb (fun x => negb (p x)) l = false.
Proof.
  induction l as [|x l IH]; simpl; [done|].
  pose proof (List.filter_length_le p l) as Hle.
  destruct (p x); simpl; intros H.
  - apply IH. lia.
  - lia.
Qed.

Lemma filter_keeps_all {A : Type} (p : A -> bool) (l : list A) :
  existsb (fun x => negb (p x)) l = false -> List.filter p l = l.
Proof.
  induction l as [|x l IH]; simpl; [done|].
  destruct (p x); simpl; [|done]. intros H. by rewrite IH.
Qed.

Lemma existsb_targeted item_id username (l : list item) :
  existsb (fun x => negb (negb (targeted item_id username x))) l
  = existsb (targeted item_id username) l.
Proof. induction l as [|x l IH]; simpl; [done|]. by rewrite negb_involutive, IH. Qed.

(** Whenever [delete_item] returns: the items removed are exactly those
    matching both the id and the owner, the result says whether there was
    one, and the fresh collection is saved only then. *)
Lemma delete_item_returns item_id username w b w' :
  delete_item item_id username w = (Ok b, w') ->
  let fresh := load [] (fresh_json (disk w)) in
  let new_fresh := List.filter (fun i => negb (targeted item_id username i)) fresh in
  b = existsb (targeted item_id username) fresh /\
  b = negb (Nat.eqb (length new_fresh) (length fresh)) /\
  w' = (if b then save_fresh new_fresh w else w) /\
  load [] (fresh_json (disk w')) = new_fresh.
Proof.
  unfold delete_item.
  destruct (filter_r _ _) as [r|e] eqn:E; [|done].
  apply (filter_r_ok _ (fun i => negb (targeted item_id username i))) in E;
    [|apply kept_by_delete_ok].
  subst r. simpl.
  destruct (Nat.eqb _ _) eqn:El; simpl; intros [= <- <-].
  - apply Nat.eqb_eq, filter_same_length in El. rewrite existsb_targeted in El.
    rewrite El. repeat split; try done.
    symmetry. apply filter_keeps_all. by rewrite existsb_targeted.
  - repeat split; try done.
    destruct (existsb (targeted item_id username) _) eqn:Ex; [done|].
    rewrite <- existsb_targeted in Ex. apply filter_keeps_all in Ex.
    rewrite Ex, Nat.eqb_refl in El. done.
Qed.

(** C4, as amended.  For users A and B with A <> B and an item of A in
    the fresh collection: [delete_item(item.id, B)] leaves A's item in
    the collection, unchanged, whatever the outcome; whenever it returns,
    it has removed exactly the items matching both the id and
    [owner == B], returns true exactly when there was one (when the
    length changed), and saves the fresh collection only then; and it
    returns false, saving nothing, when B owns no item with that id and
    the records carry the fields the filter indexes. *)
Theorem delete_item_owner_scoped (A B : string) (it : item) (item_id : Z) (w : world) :
  A <> B ->
  In it (load [] (fresh_json (disk w))) ->
  it !! "owner" = Some (PStr A) ->
  it !! "id" = Some (PInt item_id) ->
  let fresh := load [] (fresh_json (disk w)) in
  let new_fresh := List.filter (fun i => negb (targeted item_id B i)) fresh in
  let out := delete_item item_id B w in
  In it (load [] (fresh_json (disk out.2))) /\
  (forall b, out.1 = Ok b ->
     load [] (fresh_json (disk out.2)) = new_fresh /\
     b = existsb (targeted item_id B) fresh /\
     b = negb (Nat.eqb (length new_fresh) (length fresh)) /\
     out.2 = (if b then save_fresh new_fresh w else w)) /\
  (forallb (readable item_id) fresh = true ->
   existsb (targeted item_id B) fresh = false ->
   out = (Ok false, w)).
Proof.
  intros Hne Hin Howner Hid fresh new_fresh out.
  assert (targeted item_id B it = false) as Hnot.
  { unfold targeted, get. rewrite Howner, Hid. simpl.
    rewrite Z.eqb_refl. simpl. by apply String.eqb_neq. }
  assert (forall b, out.1 = Ok b ->
     load [] (fresh_json (disk out.2)) = new_fresh /\
     b = existsb (targeted item_id B) fresh /\
     b = negb (Nat.eqb (length new_fresh) (length fresh)) /\
     out.2 = (if b then save_fresh new_fresh w else w)) as Hret.
  { intros b Hb. destruct out as [r w'] eqn:Eout. simpl in Hb. subst r.
    apply delete_item_returns in Eout as (H1 & H2 & H3 & H4). done. }
  split; [|split; [exact Hret|]].
  - destruct (out.1) as [b|e] eqn:E.
    + destruct (Hret b eq_refl) as (-> & _).
      apply List.filter_In. by rewrite Hnot.
    + assert (out.2 = w) as ->; [|done].
      subst out. unfold delete_item in *.
      destruct (filter_r _ _); [|done]. by destruct (negb _).
  - intros Hread Hnone. subst out. unfold delete_item.
    rewrite (filter_r_total _ (fun i => negb (targeted item_id B i))).
    + fold fresh. rewrite <- existsb_targeted in Hnone.
      apply filter_keeps_all in Hnone. fold fresh in Hnone.
      by rewrite Hnone, Nat.eqb_refl.
    + apply List.Forall_forall. intros x Hx. apply kept_by_delete_readable.
      rewrite forallb_forall in Hread. by apply Hread.
Qed.

(** C4, as the specification states it, fails: when B owns another item
    with the same id, [delete_item(item.id, B)] removes that item and
    returns true (A's item stays). *)
Lemma delete_item_same_id_other_owner :
  let a : item := <["id" := PInt 1]> (<["owner" := PStr "A"]> ∅) in
  let b : item := <["id" := PInt 1]> (<["owner" := PStr "B"]> ∅) in
  let w := mkWorld (mkStore Missing (Parsed [a; b]) Missing Missing) [] in
  "A" <> "B" /\
  In a (load [] (fresh_json (disk w))) /\
  a !! "owner" = Some (PStr "A") /\
  a !! "id" = Some (PInt 1) /\
  delete_item 1 "B" w = (Ok true, save_fresh [a] w).
Proof.
  simpl. repeat split; try done. by left.
Qed.

(** C9.  [delete_item] reads and writes the fresh collection only:
    whatever the arguments and the outcome, the expired, categories and
    users documents are as before, the only possible save is one of the
    fresh collection, and the result is the one obtained with every other
    file absent. *)
Theorem delete_item_frame (item_id : Z) (username : string) (w : world) :
  let out := delete_item item_id username w in
  expired_json (disk out.2) = expired_json (disk w) /\
  categories_json (disk out.2) = categories_json (disk w) /\
  users_json (disk out.2) = users_json (disk w) /\
  (saved out.2 = saved w \/ saved out.2 = saved w ++ [Fresh]) /\
  out.1 = (delete_item item_id username
             (mkWorld (mkStore Missing (fresh_json (disk w)) Missing Missing) [])).1.
Proof.
  unfold delete_item. simpl.
  destruct (filter_r _ _) as [r|e]; simpl; [|by auto 6].
  destruct (negb _); simpl; auto 6.
Qed.

(** ** get_categories *)

(** C5.  The test [c['name'] not in cat_map] of [get_categories] is an
    exact comparison of names.  With the categories file unreadable,
    [add_category("food", "u")] finds no system record to collide with and
    stores a custom category "food"; [get_categories("u")] then returns
    it next to the system category "Food". *)
Theorem get_categories_case_sensitive (timestamp_micros : datetime -> Z)
  (now : datetime) (users : file (gmap string item)) (fresh expired : file (list item)) :
  let w := mkWorld (mkStore users fresh expired Corrupt) [] in
  let food : item :=
    <["id" := PInt (timestamp_micros now)]>
    (<["name" := PStr "food"]>
    (<["type" := PStr "custom"]>
    (<["owner" := PStr "u"]> ∅))) in
  let out := add_category timestamp_micros "food" "u" now w in
  out.1 = Ok (inr food) /\
  lower "food" = lower "Food" /\
  get_categories "u" (disk out.2) =
    Ok [system_category "Documents"; system_category "Food";
        system_category "General"; system_category "Medicine";
        system_category "Personal Care"; food].
Proof. repeat split. Qed.

Lemma for_each_invariant {A S : Type} (P : S -> Prop) (body : S -> A -> result S)
  (l : list A) (s s' : S) :
  (forall s x s', P s -> body s x = Ok s' -> P s') ->
  P s -> for_each body l s = Ok s' -> P s'.
Proof.
  intros Hstep. revert s. induction l as [|x l IH]; intros s Hs; simpl.
  - by intros [= <-].
  - destruct (body s x) as [s1|e] eqn:E; simpl; [|done].
    apply IH. by eapply Hstep.
Qed.

Lemma map_r_length {A B : Type} (f : A -> result B) (l : list A) (r : list B) :
  map_r f l = Ok r -> length r = length l.
Proof.
  revert r. induction l as [|x l IH]; intros r; simpl.
  - by intros [= <-].
  - destruct (f x); simpl; [|done].
    destruct (map_r f l) as [r'|]; simpl; [|done].
    intros [= <-]. simpl. by rewrite (IH r' eq_refl).
Qed.

Lemma snd_combine {A B : Type} (l : list A) (l' : list B) :
  length l = length l' -> List.map snd (combine l l') = l'.
Proof.
  revert l'. induction l as [|x l IH]; intros [|y l']; simpl; try done.
  intros [= H]. by rewrite IH.
Qed.

Lemma insert_by_name_In k x l y :
  In y (List.map snd (insert_by_name k x l)) <-> y = x \/ In y (List.map snd l).
Proof.
  induction l as [|[k' z] l IH]; simpl.
  - intuition.
  - destruct (String.ltb k k'); simpl; [intuition|].
    rewrite IH. intuition.
Qed.

Lemma sort_In (l acc : list (string * item)) y :
  In y (List.map snd (fold_left (fun acc kx => insert_by_name kx.1 kx.2 acc) l acc))
  <-> In y (List.map snd acc) \/ In y (List.map snd l).
Proof.
  revert acc. induction l as [|[k x] l IH]; intros acc; simpl.
  - intuition.
  - rewrite IH, insert_by_name_In. simpl. intuition.
Qed.

(** The sort returns the records it was given. *)
Lemma sorted_by_name_In values l y :
  sorted_by_name values = Ok l -> In y l <-> In y values.
Proof.
  unfold sorted_by_name.
  destruct (map_r _ values) as [keys|] eqn:Ek; simpl; [|done].
  destruct (map_r as_str keys) as [names|] eqn:En; simpl; [|done].
  intros [= <-]. rewrite sort_In, snd_combine; simpl; [intuition|].
  apply map_r_length in Ek, En. congruence.
Qed.

Lemma category_step_filed username cat_map c cat_map' :
  seed_then_filed cat_map ->
  category_step username cat_map c = Ok cat_map' ->
  seed_then_filed cat_map'.
Proof.
  intros (extra & Hm & Hextra). unfold category_step.
  destruct (owned_by username c); [|intros [= <-]; by exists extra].
  unfold getitem, cat_map_mem, mbind, result_bind, mret, result_ret.
  destruct (c !! "name") as [name|] eqn:En; cbv beta iota; [|done].
  destruct (hashable name); cbv beta iota; [|done].
  destruct (existsb _ cat_map) eqn:Ex; intros [= <-].
  - by exists extra.
  - exists (extra ++ [(name, c)]). split; [by rewrite Hm, app_assoc|].
    apply Forall_app. split; [done|]. constructor; [|constructor].
    split; [done|]. simpl.
    rewrite Hm, existsb_app in Ex. apply orb_false_iff in Ex as [Ex _].
    simpl in Ex. rewrite !orb_false_iff in Ex.
    intros n Hn. unfold system_names in Hn. simpl in Hn.
    destruct Hn as [<-|[<-|[<-|[<-|[<-|[]]]]]]; tauto.
Qed.

Lemma system_category_name n : system_category n !! "name" = Some (PStr n).
Proof. unfold system_category. by rewrite lookup_insert_eq. Qed.

(** C10.  Whatever the categories file holds, the list
    [get_categories] returns contains, for each of the five system
    names, the record of the constant [DEFAULT_CATEGORIES]: a record of
    exactly the fields [name] and [type], with no [id] and no [owner];
    and every returned record that bears a system name is that record,
    never a persisted one. *)
Theorem get_categories_system_seed (username : string) (s : store) (cats : list item) :
  get_categories username s = Ok cats ->
  (forall n, In n system_names ->
     In (system_category n) cats /\
     dom (system_category n) = ({["name"; "type"]} : gset string) /\
     system_category n !! "id" = None /\
     system_category n !! "owner" = None) /\
  (forall c n, In c cats -> In n system_names ->
     c !! "name" = Some (PStr n) -> c = system_category n).
Proof.
  unfold get_categories.
  destruct (for_each _ _ _) as [cat_map|] eqn:E; simpl; [|done].
  intros Hsort.
  apply (for_each_invariant seed_then_filed) in E;
    [|apply category_step_filed | by exists []].
  destruct E as (extra & -> & Hextra).
  rewrite List.map_app in Hsort.
  change (List.map snd initial_cat_map) with DEFAULT_CATEGORIES in Hsort.
  split.
  - intros n Hn. split; [|split; [|split]].
    + apply (sorted_by_name_In _ _ _ Hsort), in_or_app. left.
      unfold DEFAULT_CATEGORIES. by apply in_map.
    + unfold system_category. rewrite !dom_insert_L, dom_empty_L. set_solver.
    + done.
    + done.
  - intros c n Hc Hn Hname.
    apply (sorted_by_name_In _ _ _ Hsort), in_app_or in Hc. destruct Hc as [Hc|Hc].
    + unfold DEFAULT_CATEGORIES in Hc. apply in_map_iff in Hc as (n' & <- & _).
      rewrite system_category_name in Hname. by injection Hname as ->.
    + apply in_map_iff in Hc as ([k c'] & <- & Hin). simpl in *.
      rewrite List.Forall_forall in Hextra.
      destruct (Hextra _ Hin) as [Hk Hno]. simpl in *.
      rewrite Hname in Hk. injection Hk as <-.
      specialize (Hno n Hn). simpl in Hno. by rewrite String.eqb_refl in Hno.
Qed.

(** With no readable categories document the result is the constant,
    sorted. *)
Lemma get_categories_no_document username users fresh expired cats_file :
  load [] cats_file = [] ->
  get_categories username (mkStore users fresh expired cats_file) =
    Ok [system_category "Documents"; system_category "Food";
        system_category "General"; system_category "Medicine";
        system_category "Personal Care"].
Proof. unfold get_categories. simpl. by intros ->. Qed.

Lemma bind_Ok {A B : Type} (f : A -> result B) (a : A) : (Ok a ≫= f) = f a.
Proof. reflexivity. Qed.

Lemma category_step_seed username idx n :
  In n system_names ->
  category_step username initial_cat_map (seed_record idx (system_category n))
  = Ok initial_cat_map.
Proof.
  intros Hn. unfold category_step.
  destruct (owned_by username _); [|done].
  unfold system_names in Hn. simpl in Hn.
  by destruct Hn as [<-|[<-|[<-|[<-|[<-|[]]]]]].
Qed.

(** With the document seeded at bootstrap the result is the constant
    again, for every user: the records with ids [sys_0] .. [sys_4] are
    never returned. *)
Lemma get_categories_seeded username users fresh expired :
  get_categories username (mkStore users fresh expired (Parsed seeded_categories)) =
    Ok [system_category "Documents"; system_category "Food";
        system_category "General"; system_category "Medicine";
        system_category "Personal Care"].
Proof.
  unfold get_categories. cbn [load categories_json].
  change seeded_categories with
    [seed_record 0 (system_category "General"); seed_record 1 (system_category "Food");
     seed_record 2 (system_category "Medicine");
     seed_record 3 (system_category "Documents");
     seed_record 4 (system_category "Personal Care")].
  cbn [for_each].
  repeat (rewrite category_step_seed by (unfold system_names; simpl; tauto);
          rewrite bind_Ok).
  reflexivity.
Qed.

Lemma for_each_total {A S : Type} (P : S -> Prop) (Q : A -> Prop)
  (body : S -> A -> result S) (l : list A) (s : S) :
  (forall s x, P s -> Q x -> exists s', body s x = Ok s' /\ P s') ->
  Forall Q l -> P s -> exists s', for_each body l s = Ok s' /\ P s'.
Proof.
  intros Hstep Hl. revert s. induction Hl as [|x l Hx _ IH]; intros s Hs; simpl.
  - by exists s.
  - destruct (Hstep s x Hs Hx) as (s1 & -> & Hs1). simpl. by apply IH.
Qed.

Lemma category_step_total username cat_map c :
  str_keyed cat_map -> named username c ->
  exists cat_map', category_step username cat_map c = Ok cat_map' /\ str_keyed cat_map'.
Proof.
  intros Hm Hc. unfold category_step.
  destruct (owned_by username c) eqn:Eo; [|by exists cat_map].
  destruct (Hc Eo) as (s & Hs).
  unfold getitem, cat_map_mem, mbind, result_bind, mret, result_ret.
  rewrite Hs. cbv beta iota. simpl hashable. cbv iota.
  destruct (existsb _ cat_map); eexists; (split; [done|]); [done|].
  apply Forall_app. split; [done|]. constructor; [|constructor]. by exists s.
Qed.

Lemma getitem_Some (d : item) k v : d !! k = Some v -> getitem d k = Ok v.
Proof. unfold getitem. by intros ->. Qed.

Lemma sorted_by_name_total cat_map :
  str_keyed cat_map -> exists l, sorted_by_name (List.map snd cat_map) = Ok l.
Proof.
  intros Hm. unfold sorted_by_name.
  assert (map_r (fun x : item => getitem x "name") (List.map snd cat_map)
          = Ok (List.map fst cat_map)) as ->.
  { induction Hm as [|[k x] m (s & Hk & Hx) _ IH]; simpl in *; [done|].
    rewrite (getitem_Some _ _ _ Hx), Hk. simpl. by rewrite IH. }
  simpl.
  assert (exists names, map_r as_str (List.map fst cat_map) = Ok names) as (names & ->).
  { induction Hm as [|[k x] m (s & Hk & Hx) _ (names & IH)]; simpl in *.
    - by eexists.
    - rewrite Hk, IH. simpl. by eexists. }
  simpl. by eexists.
Qed.

(** X26.  When the categories file is absent or a JSON array of
    objects, [get_categories] returns (it raises nothing) as soon as
    every record of the document that the user owns has a string for
    name; records of other users may lack fields or have values of other
    types. *)
Lemma get_categories_returns username s :
  intact (categories_json s) = true ->
  Forall (named username) (load [] (categories_json s)) ->
  exists cats, get_categories username s = Ok cats.
Proof.
  intros _ Hall. unfold get_categories.
  destruct (for_each_total str_keyed (named username) (category_step username)
              (load [] (categories_json s)) initial_cat_map) as (m & -> & Hm).
  - intros m c. apply category_step_total.
  - done.
  - unfold str_keyed, initial_cat_map, system_names. simpl.
    repeat constructor; eexists; (split; [done|]); apply system_category_name.
  - simpl. by apply sorted_by_name_total.
Qed.

(** ** delete_category *)

Lemma migrate_loop_spec name username items dirty :
  migrate_loop name username items dirty =
    (List.map (migrated name username) items,
     dirty || existsb (references name username) items).
Proof.
  revert dirty. induction items as [|it items IH]; intros dirty; simpl.
  - by rewrite orb_false_r.
  - unfold migrated at 1. destruct (references name username it); rewrite IH; simpl.
    + by rewrite orb_true_r.
    + done.
Qed.

Lemma migrated_untouched name username items :
  existsb (references name username) items = false ->
  List.map (migrated name username) items = items.
Proof.
  induction items as [|it items IH]; simpl; [done|].
  intros [H1 H2]%orb_false_iff. unfold migrated at 1. by rewrite H1, IH.
Qed.

(** C6, as amended.  When [delete_category(name, username)] succeeds,
    in the fresh and in the expired collection every item owned by
    [username] whose category is [name] carries the category "General"
    afterwards, and every other item is as before - in particular every
    item of another owner, whatever its category; after the categories, a
    collection is saved exactly when one of its items is owned by
    [username] and has the category [name], whether or not the
    assignment changes it. *)
Theorem delete_category_migrates (name username msg : string) (w w' : world) :
  delete_category name username w = (Ok (true, msg), w') ->
  let fresh := load [] (fresh_json (disk w)) in
  let expired := load [] (expired_json (disk w)) in
  load [] (fresh_json (disk w')) = List.map (migrated name username) fresh /\
  load [] (expired_json (disk w')) = List.map (migrated name username) expired /\
  saved w' = saved w ++ [Categories]
               ++ (if existsb (references name username) fresh then [Fresh] else [])
               ++ (if existsb (references name username) expired then [Expired] else []) /\
  (forall it, owned_by username it = true -> py_eq (get it "category") (PStr name) = true ->
     migrated name username it !! "category" = Some (PStr "General")) /\
  (forall it, owned_by username it = false -> migrated name username it = it).
Proof.
  unfold delete_category.
  destruct (find_r _ _) as [[cat_to_del|]|]; try done.
  destruct (filter_r _ _) as [all_cats'|]; try done.
  intros [= _ <-]. unfold migrate_items. simpl.
  rewrite !migrate_loop_spec. simpl.
  destruct (existsb (references name username) (load [] (fresh_json (disk w)))) eqn:Ef;
    simpl;
    destruct (existsb (references name username) (load [] (expired_json (disk w)))) eqn:Ee;
    simpl.
  all: repeat split;
    try (by rewrite ?migrated_untouched);
    try (by rewrite <- ?app_assoc);
    try (intros it Ho Hc; unfold migrated, references; rewrite Ho, Hc; simpl;
         by rewrite lookup_insert_eq);
    try (intros it Ho; unfold migrated, references; by rewrite Ho).
Qed.

(** C6, as the specification states it, fails: where the document holds
    a custom category named "General", deleting it assigns "General" to
    items that have it already, and the collection is saved although no
    item of it was modified. *)
Lemma delete_category_general_saves_unchanged :
  let general : item :=
    <["id" := PInt 7]> (<["name" := PStr "General"]>
    (<["type" := PStr "custom"]> (<["owner" := PStr "ann"]> ∅))) in
  let milk : item :=
    <["id" := PInt 1]> (<["owner" := PStr "ann"]> (<["category" := PStr "General"]> ∅)) in
  let w := mkWorld (mkStore Missing (Parsed [milk]) (Parsed []) (Parsed [general])) [] in
  delete_category "General" "ann" w
    = (Ok (true, "Success"),
       mkWorld (mkStore Missing (Parsed [milk]) (Parsed []) (Parsed [])) [Categories; Fresh]).
Proof. reflexivity. Qed.

(** ** DataManager.save *)

Lemma handler_removes (tmp v : string) (fs : gmap string string) :
  (if bool_decide (is_Some (<[tmp := v]> fs !! tmp))
   then delete tmp (<[tmp := v]> fs) else <[tmp := v]> fs) = delete tmp fs.
Proof.
  rewrite lookup_insert_eq, bool_decide_eq_true_2 by eauto. apply delete_insert_eq.
Qed.

Lemma handler_removes_moved (tmp filepath v partial : string) (fs : gmap string string) :
  tmp <> filepath ->
  (if bool_decide (is_Some (<[filepath := partial]> (<[tmp := v]> fs) !! tmp))
   then delete tmp (<[filepath := partial]> (<[tmp := v]> fs))
   else <[filepath := partial]> (<[tmp := v]> fs))
  = <[filepath := partial]> (delete tmp fs).
Proof.
  intros Hne.
  rewrite lookup_insert_ne by congruence.
  rewrite lookup_insert_eq, bool_decide_eq_true_2 by eauto.
  rewrite delete_insert_ne by congruence. by rewrite delete_insert_eq.
Qed.

(** X20.  A failed save raises, and it leaves the target file as it
    was wherever the failure occurs - except in the move itself, when
    [os.rename] failed and the copy that [shutil.move] falls back to had
    already written to the target. *)
Lemma save_failure_target_untouched tmp flt filepath text (fs : gmap string string) :
  tmp <> filepath -> flt <> DataManager.NoFault ->
  (exists e, (DataManager.save tmp flt filepath text fs).1 = Raise e) /\
  (DataManager.save tmp flt filepath text fs).2 !! filepath =
    match flt with
    | DataManager.AtMove (Some partial) => Some partial
    | _ => fs !! filepath
    end.
Proof.
  intros Hne Hflt. unfold DataManager.save, DataManager.save_try.
  destruct flt as [| | | | |[partial|]]; try done; cbv beta iota;
    rewrite ?handler_removes, ?handler_removes_moved by done;
    (split; [by eexists|]); cbn [snd];
    by rewrite ?lookup_insert_eq, ?lookup_delete_ne, ?lookup_insert_ne.
Qed.

(** Once [temp_name] is bound - a failure of [flush], [fsync] or the
    move - the handler removes the temporary file. *)
Lemma save_failure_temp_removed tmp flt filepath text (fs : gmap string string) :
  tmp <> filepath ->
  match flt with
  | DataManager.AtFlush _ | DataManager.AtFsync | DataManager.AtMove _ =>
      (DataManager.save tmp flt filepath text fs).2 !! tmp = None
  | _ => True
  end.
Proof.
  intros Hne. unfold DataManager.save, DataManager.save_try.
  destruct flt as [| | | | |[partial|]]; try done; cbv beta iota;
    rewrite ?handler_removes, ?handler_removes_moved by done; cbn [snd];
    rewrite ?lookup_insert_ne by congruence; apply lookup_delete_eq.
Qed.

(** X21.  A save that does not fail returns, the target holds the new
    text and the temporary file is gone. *)
Lemma save_success tmp filepath text (fs : gmap string string) :
  tmp <> filepath ->
  (DataManager.save tmp DataManager.NoFault filepath text fs).1 = Ok tt /\
  (DataManager.save tmp DataManager.NoFault filepath text fs).2 !! filepath = Some text /\
  (DataManager.save tmp DataManager.NoFault filepath text fs).2 !! tmp = None.
Proof.
  intros Hne. unfold DataManager.save, DataManager.save_try. simpl.
  by rewrite lookup_insert_eq, lookup_insert_ne, lookup_delete_eq.
Qed.

(** C7.  A save that fails while [json.dump] writes into the temporary
    file: the exception leaves the [with] block before
    [temp_name = tmp_file.name] is executed, so the handler finds no
    [temp_name] among the locals and removes nothing.  The error is
    raised again and the target is untouched, but the temporary file
    stays in the data directory with what had been written. *)
Theorem save_dump_failure_leaves_temp (tmp written filepath text : string)
  (fs : gmap string string) :
  DataManager.save tmp (DataManager.AtDump written) filepath text fs
    = (Raise OSError, <[tmp := written]> fs) /\
  (DataManager.save tmp (DataManager.AtDump written) filepath text fs).2 !! tmp
    = Some written.
Proof.
  split; [reflexivity|]. simpl. apply lookup_insert_eq.
Qed.

(** ** add_item *)

(** The id of a new item is the reading of the clock, whatever else the
    call is given. *)
Lemma new_item_id timestamp_micros data username now_id now_added it :
  new_item timestamp_micros data username now_id now_added = Ok it ->
  it !! "id" = Some (PInt (timestamp_micros now_id)).
Proof.
  unfold new_item, getitem.
  destruct (data !! "name"); simpl; [|done].
  destruct (data !! "expiry_date"); simpl; [|done].
  intros [= <-]. apply lookup_insert_eq.
Qed.

Lemma add_item_ok timestamp_micros data username now_id now_added w name expiry :
  data !! "name" = Some name -> data !! "expiry_date" = Some expiry ->
  exists it,
    it !! "id" = Some (PInt (timestamp_micros now_id)) /\
    add_item timestamp_micros data username now_id now_added w
      = (Ok it, save_fresh (load [] (fresh_json (disk w)) ++ [it]) w).
Proof.
  intros Hn He. unfold add_item, new_item.
  rewrite (getitem_Some _ _ _ Hn), (getitem_Some _ _ _ He). simpl.
  eexists. split; [|done]. apply lookup_insert_eq.
Qed.

(** Calls that read different timestamps give different ids. *)
Lemma new_item_ids_distinct timestamp_micros d1 d2 u1 u2 n1 n2 a1 a2 i1 i2 :
  timestamp_micros n1 <> timestamp_micros n2 ->
  new_item timestamp_micros d1 u1 n1 a1 = Ok i1 ->
  new_item timestamp_micros d2 u2 n2 a2 = Ok i2 ->
  i1 !! "id" <> i2 !! "id".
Proof.
  intros Hne H1%new_item_id H2%new_item_id. rewrite H1, H2. congruence.
Qed.

(** C8.  Two calls of [add_item] that read the same clock value - the
    id is computed from [datetime.now()] alone, before the lock is taken -
    store two items with the same id. *)
Theorem add_item_ids_collide (timestamp_micros : datetime -> Z) (now : datetime)
  (name expiry : pyval) (u1 u2 : string) (w : world) :
  let data : item := <["name" := name]> (<["expiry_date" := expiry]> ∅) in
  let r1 := add_item timestamp_micros data u1 now now w in
  let r2 := add_item timestamp_micros data u2 now now r1.2 in
  exists i1 i2,
    r1.1 = Ok i1 /\ r2.1 = Ok i2 /\
    i1 !! "id" = Some (PInt (timestamp_micros now)) /\
    i2 !! "id" = Some (PInt (timestamp_micros now)) /\
    load [] (fresh_json (disk r2.2)) = load [] (fresh_json (disk w)) ++ [i1; i2].
Proof.
  intros data r1 r2.
  assert (data !! "name" = Some name) as Hn by apply lookup_insert_eq.
  assert (data !! "expiry_date" = Some expiry) as He
    by (unfold data; by rewrite lookup_insert_ne, lookup_insert_eq).
  destruct (add_item_ok timestamp_micros data u1 now now w _ _ Hn He) as (i1 & Hi1 & E1).
  destruct (add_item_ok timestamp_micros data u2 now now r1.2 _ _ Hn He)
    as (i2 & Hi2 & E2).
  exists i1, i2. subst r2. rewrite E2. subst r1. rewrite E1. simpl.
  repeat split; try done. by rewrite <- app_assoc.
Qed.

(** ** The theorems at concrete inputs *)


Lemma delete_item_owner_scoped_witness :
  let milk : item :=
    <["id" := PInt 7]> (<["name" := PStr "UserA_Milk"]> (<["owner" := PStr "UserA"]> ∅)) in
  let w := mkWorld (mkStore Missing (Parsed [milk]) Missing Missing) [] in
  "UserA" <> "UserB" /\
  In milk (load [] (fresh_json (disk w))) /\
  milk !! "owner" = Some (PStr "UserA") /\
  milk !! "id" = Some (PInt 7) /\
  In milk (load [] (fresh_json (disk (delete_item 7 "UserB" w).2))) /\
  delete_item 7 "UserB" w = (Ok false, w).
Proof.
  intros milk w.
  assert ("UserA" <> "UserB") as Hne by discriminate.
  assert (In milk (load [] (fresh_json (disk w)))) as Hin by (left; reflexivity).
  assert (milk !! "owner" = Some (PStr "UserA")) as Ho by reflexivity.
  assert (milk !! "id" = Some (PInt 7)) as Hi by reflexivity.
  destruct (delete_item_owner_scoped "UserA" "UserB" milk 7 w Hne Hin Ho Hi)
    as (Hkept & _ & Hfalse).
  repeat (split; [assumption|]).
  apply Hfalse; reflexivity.
Defined.

Lemma delete_category_migrates_witness :
  let snacks : item :=
    <["id" := PInt 5]> (<["name" := PStr "Snacks"]>
    (<["type" := PStr "custom"]> (<["owner" := PStr "ann"]> ∅))) in
  let crisps : item :=
    <["id" := PInt 1]> (<["category" := PStr "Snacks"]> (<["owner" := PStr "ann"]> ∅)) in
  let nuts : item :=
    <["id" := PInt 2]> (<["category" := PStr "Snacks"]> (<["owner" := PStr "bob"]> ∅)) in
  let w := mkWorld (mkStore Missing (Parsed [crisps; nuts]) Missing (Parsed [snacks])) [] in
  let w' := (delete_category "Snacks" "ann" w).2 in
  delete_category "Snacks" "ann" w = (Ok (true, "Success"), w') /\
  load [] (fresh_json (disk w')) = [<["category" := PStr "General"]> crisps; nuts] /\
  saved w' = [Categories; Fresh].
Proof.
  intros snacks crisps nuts w w'.
  assert (delete_category "Snacks" "ann" w = (Ok (true, "Success"), w')) as H
    by reflexivity.
  split; [exact H|].
  destruct (delete_category_migrates "Snacks" "ann" "Success" w w' H)
    as (Hf & _ & Hs & _).
  split; [exact Hf | exact Hs].
Defined.

Lemma get_categories_system_seed_witness :
  let s := mkStore Missing Missing Missing Corrupt in
  let cats := [system_category "Documents"; system_category "Food";
               system_category "General"; system_category "Medicine";
               system_category "Personal Care"] in
  get_categories "ann" s = Ok cats /\
  (forall n, In n system_names -> In (system_category n) cats) /\
  (forall c n, In c cats -> In n system_names ->
     c !! "name" = Some (PStr n) -> c = system_category n).
Proof.
  intros s cats.
  assert (get_categories "ann" s = Ok cats) as H by reflexivity.
  split; [exact H|].
  destruct (get_categories_system_seed "ann" s cats H) as (Hsys & Honly).
  split; [|exact Honly].
  intros n Hn. exact (proj1 (Hsys n Hn)).
Defined.

(** * Further properties of the code *)

(** ** get_inventory *)

Lemma existsb_false_Forall {A : Type} (p : A -> bool) (l : list A) :
  existsb p l = false -> Forall (fun x => p x = false) l.
Proof.
  induction l as [|x l IH]; simpl; [constructor|].
  intros [H1 H2]%orb_false_iff. constructor; auto.
Qed.

Lemma within_retention_raises today_date it e :
  within_retention today_date it = Raise e ->
  e = KeyError \/ e = ValueError \/ e = TypeError \/ e = OverflowError.
Proof.
  unfold within_retention, getitem.
  destruct (it !! "expiry_date") as [v|]; simpl; [|intros [= <-]; tauto].
  destruct (strptime_ymd v) as [x|e'] eqn:E; simpl.
  - unfold add_days. destruct (_ && _); simpl; [done|intros [= <-]; tauto].
  - intros [= <-]. destruct (strptime_raises _ _ E); tauto.
Qed.

Lemma purge_pass_escape today_date l acc it :
  In it l -> escapes today_date it = true ->
  exists e, for_each (purge_step today_date) l acc = Raise e /\
            (e = KeyError \/ e = OverflowError).
Proof.
  revert acc. induction l as [|x l IH]; intros acc; simpl; [done|].
  intros Hin Hesc. rewrite purge_step_kept.
  destruct (escapes today_date x) eqn:Ex.
  - unfold escapes in Ex.
    destruct (within_retention today_date x) as [b|e] eqn:Ew; [done|].
    exists e. split; [done|].
    destruct (within_retention_raises _ _ _ Ew) as [->|[->|[->| ->]]];
      try discriminate; tauto.
  - destruct Hin as [->|Hin]; [congruence|].
    destruct (kept today_date x); simpl; by apply IH.
Qed.

(** X2.  One expired record without [expiry_date] is enough for
    [get_inventory] to raise, for every user and at every time: the
    exception is a [KeyError] (or the [OverflowError] of a record met
    earlier), and nothing is written. *)
Theorem get_inventory_undated_blocks (username : string) (now1 now2 : datetime)
  (w : world) (it : item) :
  In it (load [] (expired_json (disk w))) ->
  it !! "expiry_date" = None ->
  exists e, get_inventory username now1 now2 w = (Raise e, w) /\
            (e = KeyError \/ e = OverflowError).
Proof.
  intros Hin Hnone. unfold get_inventory, sweep, purge_pass, fresh_pass.
  rewrite fresh_pass_from. simpl.
  edestruct (purge_pass_escape (to_instant now2)) as (e & -> & He).
  - apply in_or_app. left. exact Hin.
  - unfold escapes. by rewrite within_retention_undated.
  - simpl. by exists e.
Qed.

Lemma get_inventory_undated_blocks_witness :
  let it : item := <["id" := PInt 3]> (<["owner" := PStr "ann"]> ∅) in
  let ok : item := <["expiry_date" := PStr "2026-11-20"]> it in
  let w := mkWorld (mkStore Missing (Parsed [ok]) (Parsed [ok; it]) Missing) [] in
  let now := mkDatetime 2026 11 3 0%N in
  In it (load [] (expired_json (disk w))) /\
  it !! "expiry_date" = None /\
  exists e, get_inventory "bob" now now w = (Raise e, w) /\
            (e = KeyError \/ e = OverflowError).
Proof.
  intros it ok w now.
  assert (In it (load [] (expired_json (disk w)))) as Hin by (right; left; reflexivity).
  assert (it !! "expiry_date" = None) as Hnone by reflexivity.
  split; [exact Hin|]. split; [exact Hnone|].
  exact (get_inventory_undated_blocks "bob" now now w it Hin Hnone).
Defined.

Lemma sweep_tidy today_str today_date s nf fe d :
  sweep today_str today_date s = Ok (nf, fe, d) ->
  Forall (fun it => lacks_category it = false /\ lex_expired today_str it = false) nf /\
  Forall (fun it => lacks_category it = false /\ kept today_date it = true) fe.
Proof.
  unfold sweep, purge_pass.
  set (p1 := fresh_pass today_str (load [] (fresh_json s)) (load [] (expired_json s))).
  destruct (for_each _ (all_expired p1) _) as [[fe' d']|e] eqn:E; simpl; [|done].
  intros [= <- <- <-].
  apply purge_pass_from in E as [Hfe _]. simpl in Hfe. split.
  - unfold p1, fresh_pass. rewrite fresh_pass_from. simpl.
    apply Forall_filter_map. intros x Hx. split; [apply healed_has_category|].
    by destruct (lex_expired today_str (healed x)).
  - rewrite Hfe. apply Forall_filter_map. intros x Hx.
    split; [apply healed_has_category | done].
Qed.

(** A sweep that returns with a clean flag returns the stored lists. *)
Lemma sweep_clean today_str today_date s nf fe :
  sweep today_str today_date s = Ok (nf, fe, false) ->
  nf = load [] (fresh_json s) /\ fe = load [] (expired_json s).
Proof.
  unfold sweep, purge_pass, fresh_pass. rewrite fresh_pass_from. simpl.
  destruct (for_each _ _ _) as [[fe' d']|e] eqn:E; simpl; [|done].
  intros [= <- <- ->].
  apply purge_pass_from in E as [Hfe Hd]. simpl in *.
  symmetry in Hd. apply orb_false_iff in Hd as [Hd1 Hd2].
  apply orb_false_iff in Hd1 as [Hc Hl].
  apply existsb_false_Forall in Hc, Hl, Hd2.
  assert (List.map healed (load [] (fresh_json s)) = load [] (fresh_json s)) as Hm.
  { apply map_fixed. eapply Forall_impl; [exact Hc|]. intros x. apply healed_fixed. }
  rewrite Hm in *.
  rewrite (filter_none _ _ Hl) in *. simpl in *. rewrite app_nil_r in *.
  split.
  - apply filter_all. eapply Forall_impl; [exact Hl|].
    intros x Hx. simpl in Hx. by rewrite Hx.
  - rewrite Hfe.
    assert (List.map healed (load [] (expired_json s)) = load [] (expired_json s)) as ->.
    { apply map_fixed. eapply Forall_impl; [exact Hd2|]. intros x Hx. simpl in Hx.
      apply healed_fixed. by apply orb_false_iff in Hx as [? _]. }
    apply filter_all. eapply Forall_impl; [exact Hd2|]. intros x Hx. simpl in Hx.
    apply orb_false_iff in Hx as [_ Hk]. by apply negb_false_iff in Hk.
Qed.

(** X3.  After every call of [get_inventory] that returns, on a store
    whose dates are ASCII text, the persisted store is tidy for the day
    of the call: each fresh record has a category and no past date, each
    expired record has a category and a date that parses and lies within
    the 30 days of retention. *)
Theorem get_inventory_leaves_tidy (username : string) (now1 now2 : datetime)
  (w w' : world) (inv : inventory) :
  ascii_dates (disk w) = true ->
  get_inventory username now1 now2 w = (Ok inv, w') ->
  tidy (strftime_ymd now1) (to_instant now2) (disk w').
Proof.
  intros _. unfold get_inventory.
  destruct (sweep _ _ _) as [[[nf fe] d]|e] eqn:E; [|done].
  intros [= _ <-]. destruct d.
  - apply sweep_tidy in E. exact E.
  - pose proof (sweep_tidy _ _ _ _ _ _ E) as H.
    destruct (sweep_clean _ _ _ _ _ E) as [-> ->]. exact H.
Qed.

(** X4.  The two lists [get_inventory] returns are exactly the records
    owned by the caller in the fresh and in the expired collection as
    they are persisted after the call, in the stored order; no record of
    another owner is ever returned. *)
Theorem get_inventory_user_slice (username : string) (now1 now2 : datetime)
  (w w' : world) (inv : inventory) :
  get_inventory username now1 now2 w = (Ok inv, w') ->
  inv_fresh inv = List.filter (owned_by username) (load [] (fresh_json (disk w'))) /\
  inv_expired inv = List.filter (owned_by username) (load [] (expired_json (disk w'))) /\
  Forall (fun i => get i "owner" = PStr username) (inv_fresh inv ++ inv_expired inv).
Proof.
  unfold get_inventory.
  destruct (sweep _ _ _) as [[[nf fe] d]|e] eqn:E; [|done].
  intros [= <- <-].
  assert (forall l, Forall (fun i => get i "owner" = PStr username)
                      (List.filter (owned_by username) l)) as Hown.
  { intros l. apply List.Forall_forall. intros i [_ Hi]%List.filter_In.
    unfold owned_by in Hi. destruct (get i "owner"); simpl in Hi; try done.
    by apply String.eqb_eq in Hi as ->. }
  destruct d; simpl.
  - repeat split; try done. apply Forall_app. split; apply Hown.
  - destruct (sweep_clean _ _ _ _ _ E) as [-> ->].
    repeat split; try done. apply Forall_app. split; apply Hown.
Qed.

(** X5.  On a store whose dates are ASCII text: an exception of one
    of the two loops of [get_inventory] ends the call before the first
    save, so that nothing is written; and a call that returns has left
    the users and categories files as they were, and has saved either
    nothing or the fresh collection and then the expired one.  (A call
    ended by a save that fails is not covered: the second save can fail
    after the first has replaced the fresh file.) *)
Theorem get_inventory_frame (username : string) (now1 now2 : datetime) (w : world) :
  ascii_dates (disk w) = true ->
  (forall e, sweep (strftime_ymd now1) (to_instant now2) (disk w) = Raise e ->
     get_inventory username now1 now2 w = (Raise e, w)) /\
  (forall inv w', get_inventory username now1 now2 w = (Ok inv, w') ->
     users_json (disk w') = users_json (disk w) /\
     categories_json (disk w') = categories_json (disk w) /\
     (w' = w \/ saved w' = saved w ++ [Fresh; Expired])).
Proof.
  intros _. unfold get_inventory.
  destruct (sweep _ _ _) as [[[nf fe] d]|e]; split; try done.
  - intros inv w' [= _ <-].
    destruct d; simpl; repeat split; auto.
    right. by rewrite <- app_assoc.
  - by intros e' [= ->].
Qed.

Lemma get_inventory_frame_witness :
  let a : item := <["owner" := PStr "ann"]> (<["expiry_date" := PStr "2026-10-31"]> ∅) in
  let b : item := <["owner" := PStr "bob"]> ∅ in
  let w := mkWorld (mkStore Corrupt (Parsed [a]) Missing Corrupt) [Users] in
  let v := mkWorld (mkStore Corrupt (Parsed [a]) (Parsed [b]) Corrupt) [Users] in
  let now := mkDatetime 2026 11 3 0%N in
  let out := get_inventory "ann" now now w in
  ascii_dates (disk w) = true /\ ascii_dates (disk v) = true /\
  get_inventory "ann" now now v = (Raise KeyError, v) /\
  users_json (disk out.2) = Corrupt /\ categories_json (disk out.2) = Corrupt /\
  (out.2 = w \/ saved out.2 = [Users; Fresh; Expired]).
Proof.
  intros a b w v now out.
  assert (ascii_dates (disk w) = true) as Hw by reflexivity.
  assert (ascii_dates (disk v) = true) as Hv by reflexivity.
  split; [exact Hw|]. split; [exact Hv|]. split.
  - exact (proj1 (get_inventory_frame "ann" now now v Hv) KeyError eq_refl).
  - exact (proj2 (get_inventory_frame "ann" now now w Hw)
             (mkInventory [] [archived "2026-11-03" (healed a)]) out.2 eq_refl).
Defined.

Lemma days_before_year_nonneg y : 1 <= y -> 0 <= days_before_year y.
Proof.
  intros Hy. unfold days_before_year. cbv zeta.
  assert ((y - 1) / 100 <= (y - 1) / 4) by (apply Z.div_le_compat_l; lia).
  assert (0 <= (y - 1) / 400) by (apply Z.div_pos; lia).
  lia.
Qed.

Lemma days_before_month_nonneg y m : 0 <= days_before_month y m.
Proof.
  unfold days_before_month.
  assert (0 <= nth (Z.to_nat m)
                   [0; 0; 31; 59; 90; 120; 151; 181; 212; 243; 273; 304; 334] 0).
  { generalize (Z.to_nat m). intros n.
    do 13 (destruct n as [|n]; [simpl; lia|]). simpl. destruct n; lia. }
  destruct (_ && _); lia.
Qed.

Lemma strptime_ordinal_pos v d : strptime_ymd v = Ok d -> 1 <= d.1.
Proof.
  unfold strptime_ymd. destruct v; try discriminate.
  destruct (regex_ymd s) as [[[[y m] dd] rest]|]; try discriminate.
  destruct (negb (String.eqb rest "")); try discriminate.
  destruct (_ && _) eqn:E; try discriminate.
  intros [= <-]. simpl.
  rewrite !andb_true_iff, !Z.leb_le in E. destruct E as ((((Hy & _) & _) & Hd) & _).
  unfold ymd2ord.
  pose proof (days_before_year_nonneg y Hy). pose proof (days_before_month_nonneg y m).
  lia.
Qed.

Lemma in_calendar_no_escape today_date it :
  is_Some (it !! "expiry_date") -> in_calendar it -> escapes today_date it = false.
Proof.
  intros [v Hv] Hcal. unfold escapes. rewrite (within_retention_dated _ _ _ Hv).
  destruct (strptime_ymd v) as [d|e] eqn:E; simpl.
  - unfold add_days. simpl.
    pose proof (strptime_ordinal_pos _ _ E). pose proof (Hcal _ _ Hv E).
    replace ((1 <=? d.1 + 30) && (d.1 + 30 <=? MAXORDINAL)) with true; [done|].
    symmetry. apply andb_true_iff. split; apply Z.leb_le; lia.
  - by destruct (strptime_raises _ _ E) as [-> | ->].
Qed.

Lemma purge_pass_returns today_date l acc :
  Forall (fun it => escapes today_date it = false) l ->
  exists res, for_each (purge_step today_date) l acc = Ok res.
Proof.
  intros Hl. revert acc. induction Hl as [|x l Hx _ IH]; intros acc; simpl.
  - by eexists.
  - rewrite purge_step_kept, Hx. destruct (kept today_date x); simpl; apply IH.
Qed.

(** X6.  When the two inventory files are absent or JSON arrays of
    objects whose dates are ASCII text, the two loops of [get_inventory]
    raise nothing as soon as every expired record has an [expiry_date]
    key and no record has a date whose retention limit falls after
    9999-12-31; dates of the wrong type or that do not parse are no
    obstacle.  The only exception such a call can end with is that of a
    save. *)
Theorem get_inventory_loops_total (now1 now2 : datetime) (w : world) :
  intact (fresh_json (disk w)) = true ->
  intact (expired_json (disk w)) = true ->
  ascii_dates (disk w) = true ->
  Forall (fun it => is_Some (it !! "expiry_date")) (load [] (expired_json (disk w))) ->
  Forall in_calendar (load [] (fresh_json (disk w)) ++ load [] (expired_json (disk w))) ->
  exists new_fresh final_expired updates_needed,
    sweep (strftime_ymd now1) (to_instant now2) (disk w)
      = Ok (new_fresh, final_expired, updates_needed).
Proof.
  intros _ _ _ Hkey Hcal. apply Forall_app in Hcal as [Hcf Hce].
  unfold sweep, purge_pass, fresh_pass. rewrite fresh_pass_from. simpl.
  edestruct (purge_pass_returns (to_instant now2)) as ([fe d] & ->).
  2: { simpl. by do 3 eexists. }
  apply Forall_app. split.
  - rewrite List.Forall_forall in Hkey, Hce. apply List.Forall_forall.
    intros x Hx. apply in_calendar_no_escape; auto.
  - rewrite List.Forall_forall in Hcf. apply List.Forall_forall.
    intros x (y & <- & [(z & <- & Hz)%in_map_iff Hlex]%List.filter_In)%in_map_iff.
    assert (archived (strftime_ymd now1) (healed z) !! "expiry_date" = z !! "expiry_date")
      as Heq.
    { unfold archived. by rewrite lookup_insert_ne, healed_expiry. }
    apply in_calendar_no_escape.
    + rewrite Heq. rewrite lex_expired_healed in Hlex. unfold lex_expired in Hlex.
      by destruct (z !! "expiry_date").
    + intros v d. rewrite Heq. by apply Hcf.
Qed.

Lemma get_inventory_loops_total_witness :
  let a : item := <["owner" := PStr "ann"]> (<["expiry_date" := PStr "2026-10-31"]> ∅) in
  let b : item := <["owner" := PStr "ann"]> (<["expiry_date" := PStr "soon"]> ∅) in
  let c : item := <["owner" := PStr "bob"]> (<["expiry_date" := PNone]> ∅) in
  let w := mkWorld (mkStore Missing (Parsed [a; b]) (Parsed [b; c]) Missing) [] in
  let now := mkDatetime 2026 11 3 0%N in
  intact (fresh_json (disk w)) = true /\
  intact (expired_json (disk w)) = true /\
  ascii_dates (disk w) = true /\
  Forall (fun it => is_Some (it !! "expiry_date")) (load [] (expired_json (disk w))) /\
  Forall in_calendar (load [] (fresh_json (disk w)) ++ load [] (expired_json (disk w))) /\
  exists new_fresh final_expired updates_needed,
    sweep (strftime_ymd now) (to_instant now) (disk w)
      = Ok (new_fresh, final_expired, updates_needed).
Proof.
  intros a b c w now.
  assert (intact (fresh_json (disk w)) = true) as Hf by reflexivity.
  assert (intact (expired_json (disk w)) = true) as He by reflexivity.
  assert (ascii_dates (disk w) = true) as Ha by reflexivity.
  assert (Forall (fun it => is_Some (it !! "expiry_date"))
                 (load [] (expired_json (disk w)))) as Hkey.
  { repeat constructor; eexists; reflexivity. }
  assert (Forall in_calendar
            (load [] (fresh_json (disk w)) ++ load [] (expired_json (disk w)))) as Hcal.
  { repeat constructor; intros v d Hv Hd; vm_compute in Hv;
      injection Hv as <-; vm_compute in Hd; try discriminate Hd;
      injection Hd as <-; vm_compute; discriminate. }
  split; [exact Hf|]. split; [exact He|]. split; [exact Ha|].
  split; [exact Hkey|]. split; [exact Hcal|].
  exact (get_inventory_loops_total now now w Hf He Ha Hkey Hcal).
Defined.

Lemma purge_step_dated_witness :
  let it : item := <["category" := PStr "Food"]> (<["expiry_date" := PStr "2026-10-04"]> ∅) in
  let today : instant := to_instant (mkDatetime 2026 11 3 43200000000%N) in
  it !! "expiry_date" = Some (PStr "2026-10-04") /\
  ascii_value (PStr "2026-10-04") = true /\
  purge_step today ([], false) it = Ok ([], true) /\
  purge_step (today.1 - 1, today.2) ([], false) it = Ok ([it], false).
Proof.
  intros it today.
  assert (it !! "expiry_date" = Some (PStr "2026-10-04")) as Hv by reflexivity.
  assert (ascii_value (PStr "2026-10-04") = true) as Ha by reflexivity.
  split; [exact Hv|]. split; [exact Ha|]. split.
  - rewrite (purge_step_dated today ([], false) it _ Hv Ha). reflexivity.
  - rewrite (purge_step_dated (today.1 - 1, today.2) ([], false) it _ Hv Ha).
    reflexivity.
Defined.

Lemma get_inventory_leaves_tidy_witness :
  let a : item := <["owner" := PStr "ann"]> (<["expiry_date" := PStr "2026-10-31"]> ∅) in
  let w := mkWorld (mkStore Missing (Parsed [a]) Missing Missing) [] in
  let now := mkDatetime 2026 11 3 0%N in
  let out := get_inventory "ann" now now w in
  ascii_dates (disk w) = true /\
  get_inventory "ann" now now w
    = (Ok (mkInventory [] [archived "2026-11-03" (healed a)]), out.2) /\
  tidy (strftime_ymd now) (to_instant now) (disk out.2).
Proof.
  intros a w now out.
  assert (ascii_dates (disk w) = true) as Ha by reflexivity.
  assert (get_inventory "ann" now now w
          = (Ok (mkInventory [] [archived "2026-11-03" (healed a)]), out.2)) as H
    by reflexivity.
  split; [exact Ha|]. split; [exact H|].
  exact (get_inventory_leaves_tidy "ann" now now w out.2 _ Ha H).
Defined.

Lemma get_inventory_user_slice_witness :
  let a : item := <["owner" := PStr "ann"]> (<["expiry_date" := PStr "2026-10-31"]> ∅) in
  let b : item := <["owner" := PStr "bob"]> (<["expiry_date" := PStr "2027-01-01"]> ∅) in
  let w := mkWorld (mkStore Missing (Parsed [a; b]) Missing Missing) [] in
  let now := mkDatetime 2026 11 3 0%N in
  let out := get_inventory "bob" now now w in
  get_inventory "bob" now now w = (Ok (mkInventory [healed b] []), out.2) /\
  [healed b] = List.filter (owned_by "bob") (load [] (fresh_json (disk out.2))) /\
  [] = List.filter (owned_by "bob") (load [] (expired_json (disk out.2))).
Proof.
  intros a b w now out.
  assert (get_inventory "bob" now now w = (Ok (mkInventory [healed b] []), out.2)) as H
    by reflexivity.
  split; [exact H|].
  destruct (get_inventory_user_slice "bob" now now w out.2 _ H) as (Hf & He & _).
  split; [exact Hf | exact He].
Defined.
(** ** delete_item and add_item *)

Lemma kept_by_delete_raises item_id username i e :
  kept_by_delete item_id username i = Raise e -> e = KeyError.
Proof.
  unfold kept_by_delete, getitem.
  destruct (i !! "id") as [v|]; simpl; [|by intros [= <-]].
  destruct (py_eq v (PInt item_id)); simpl; [|done].
  destruct (i !! "owner"); simpl; [done | by intros [= <-]].
Qed.

Lemma filter_r_raises {A : Type} (p : A -> result bool) (l : list A) (x : A) (e0 : exn) :
  (forall y e, p y = Raise e -> e = e0) ->
  In x l -> p x = Raise e0 -> filter_r p l = Raise e0.
Proof.
  intros Hp. induction l as [|y l IH]; simpl; [done|].
  intros Hin Hx. destruct (p y) as [b|e] eqn:Ey; simpl.
  - destruct Hin as [->|Hin]; [congruence|]. by rewrite (IH Hin Hx).
  - by rewrite (Hp _ _ Ey).
Qed.

Lemma filter_r_each {A : Type} (p : A -> result bool) (l r : list A) :
  filter_r p l = Ok r -> Forall (fun x => exists b, p x = Ok b) l.
Proof.
  revert r. induction l as [|x l IH]; intros r; simpl; [constructor|].
  destruct (p x) as [b|e] eqn:Ex; simpl; [|done].
  destruct (filter_r p l) as [r'|e] eqn:El; simpl; [|done].
  intros _. constructor; [by exists b | by eapply IH].
Qed.

(** X7.  A single fresh record without an ['id'] key makes every call
    of [delete_item] raise [KeyError], whatever the id and the user, and
    nothing is deleted. *)
Theorem delete_item_missing_id (item_id : Z) (username : string) (w : world) (i : item) :
  In i (load [] (fresh_json (disk w))) ->
  i !! "id" = None ->
  delete_item item_id username w = (Raise KeyError, w).
Proof.
  intros Hin Hid. unfold delete_item.
  rewrite (filter_r_raises _ _ i KeyError); [done | | done |].
  - intros y e. apply kept_by_delete_raises.
  - unfold kept_by_delete, getitem. by rewrite Hid.
Qed.

Lemma delete_item_missing_id_witness :
  let a : item := <["id" := PInt 1]> (<["owner" := PStr "ann"]> ∅) in
  let b : item := <["owner" := PStr "bob"]> ∅ in
  let w := mkWorld (mkStore Missing (Parsed [a; b]) Missing Missing) [] in
  In b (load [] (fresh_json (disk w))) /\
  b !! "id" = None /\
  delete_item 1 "ann" w = (Raise KeyError, w).
Proof.
  intros a b w.
  assert (In b (load [] (fresh_json (disk w)))) as Hin by (right; left; reflexivity).
  assert (b !! "id" = None) as Hid by reflexivity.
  split; [exact Hin|]. split; [exact Hid|].
  exact (delete_item_missing_id 1 "ann" w b Hin Hid).
Defined.

Lemma filter_filter_same {A : Type} (p : A -> bool) (l : list A) :
  List.filter p (List.filter p l) = List.filter p l.
Proof.
  induction l as [|x l IH]; simpl; [done|].
  destruct (p x) eqn:E; simpl; [by rewrite E, IH | done].
Qed.

(** X8.  Deleting twice: after a call of [delete_item] that returned,
    the same call again returns false and writes nothing. *)
Theorem delete_item_twice (item_id : Z) (username : string) (w w' : world) (b : bool) :
  delete_item item_id username w = (Ok b, w') ->
  delete_item item_id username w' = (Ok false, w').
Proof.
  intros H. pose proof H as (_ & _ & _ & Hfresh)%delete_item_returns.
  unfold delete_item in *.
  destruct (filter_r _ (load [] (fresh_json (disk w)))) as [r|e] eqn:E; [|by destruct e].
  apply filter_r_each in E.
  rewrite Hfresh.
  rewrite (filter_r_total _ (fun i => negb (targeted item_id username i))).
  - by rewrite filter_filter_same, Nat.eqb_refl.
  - apply List.Forall_forall. intros x [Hx _]%List.filter_In.
    rewrite List.Forall_forall in E. destruct (E x Hx) as [bx Hbx].
    by rewrite Hbx, (kept_by_delete_ok _ _ _ _ Hbx).
Qed.

Lemma delete_item_twice_witness :
  let a : item := <["id" := PInt 1]> (<["owner" := PStr "ann"]> ∅) in
  let b : item := <["id" := PInt 2]> (<["owner" := PStr "ann"]> ∅) in
  let w := mkWorld (mkStore Missing (Parsed [a; b]) Missing Missing) [] in
  let w' := save_fresh [b] w in
  delete_item 1 "ann" w = (Ok true, w') /\
  delete_item 1 "ann" w' = (Ok false, w').
Proof.
  intros a b w w'.
  assert (delete_item 1 "ann" w = (Ok true, w')) as H by reflexivity.
  split; [exact H|].
  exact (delete_item_twice 1 "ann" w w' true H).
Defined.

(** X9.  [add_item] indexes [data['name']] and [data['expiry_date']]:
    without either key it raises [KeyError] and the store is left as it
    was. *)
Theorem add_item_missing_field (timestamp_micros : datetime -> Z) (data : item)
  (username : string) (now_id now_added : datetime) (w : world) :
  add_item timestamp_micros (delete "name" data) username now_id now_added w
    = (Raise KeyError, w) /\
  add_item timestamp_micros (delete "expiry_date" data) username now_id now_added w
    = (Raise KeyError, w).
Proof.
  unfold add_item, new_item, getitem. split.
  - by rewrite lookup_delete_eq.
  - destruct (delete "expiry_date" data !! "name"); simpl; by rewrite ?lookup_delete_eq.
Qed.

(** The fields of the record [add_item] builds. *)
Lemma new_item_fields timestamp_micros data username now_id now_added it :
  new_item timestamp_micros data username now_id now_added = Ok it ->
  it !! "id" = Some (PInt (timestamp_micros now_id)) /\
  it !! "name" = data !! "name" /\
  it !! "expiry_date" = data !! "expiry_date" /\
  it !! "category" = Some (default (PStr "General") (data !! "category")) /\
  it !! "owner" = Some (PStr username) /\
  it !! "added_at" = Some (PStr (strftime_ymd now_added)).
Proof.
  unfold new_item, getitem.
  destruct (data !! "name") as [n|]; simpl; [|done].
  destruct (data !! "expiry_date") as [x|]; simpl; [|done].
  intros [= <-]. repeat split;
    repeat (first [rewrite lookup_insert_eq | rewrite lookup_insert_ne by done]); done.
Qed.

Lemma add_item_returns timestamp_micros data username now_id now_added w it w' :
  add_item timestamp_micros data username now_id now_added w = (Ok it, w') ->
  new_item timestamp_micros data username now_id now_added = Ok it /\
  w' = save_fresh (load [] (fresh_json (disk w)) ++ [it]) w.
Proof.
  unfold add_item. destruct (new_item _ _ _ _ _); [|done]. by intros [= -> <-].
Qed.

(** X10.  Adding an item and deleting it again: when the fresh
    collection held no record of that user with the new id, and its
    records have the fields the filter indexes, [delete_item] with the id
    [add_item] returned and the same user returns true and the fresh
    collection is as it was before the two calls. *)
Theorem add_then_delete (timestamp_micros : datetime -> Z) (data : item)
  (username : string) (now_id now_added : datetime) (w w1 : world) (it : item) :
  add_item timestamp_micros data username now_id now_added w = (Ok it, w1) ->
  forallb (readable (timestamp_micros now_id)) (load [] (fresh_json (disk w))) = true ->
  existsb (targeted (timestamp_micros now_id) username) (load [] (fresh_json (disk w)))
    = false ->
  exists w2,
    delete_item (timestamp_micros now_id) username w1 = (Ok true, w2) /\
    load [] (fresh_json (disk w2)) = load [] (fresh_json (disk w)).
Proof.
  intros [Hnew ->]%add_item_returns Hread Hnone.
  destruct (new_item_fields _ _ _ _ _ _ Hnew) as (Hid & _ & _ & _ & Howner & _).
  set (fresh := load [] (fresh_json (disk w))) in *.
  assert (targeted (timestamp_micros now_id) username it = true) as Ht.
  { unfold targeted, get. rewrite Hid, Howner. simpl.
    by rewrite Z.eqb_refl, String.eqb_refl. }
  assert (List.filter (fun i => negb (targeted (timestamp_micros now_id) username i))
            (fresh ++ [it]) = fresh) as Hf.
  { rewrite List.filter_app. simpl. rewrite Ht. simpl. rewrite app_nil_r.
    apply filter_keeps_all. by rewrite existsb_targeted. }
  unfold delete_item. simpl. fold fresh.
  rewrite (filter_r_total _
             (fun i => negb (targeted (timestamp_micros now_id) username i))).
  - rewrite Hf, length_app. simpl.
    replace (Nat.eqb (length fresh) (length fresh + 1)) with false
      by (symmetry; apply Nat.eqb_neq; lia).
    simpl. by eexists.
  - apply Forall_app. split.
    + apply List.Forall_forall. intros x Hx. apply kept_by_delete_readable.
      rewrite forallb_forall in Hread. by apply Hread.
    + constructor; [|constructor]. apply kept_by_delete_readable.
      unfold readable. rewrite Hid, Howner. by destruct (py_eq _ _).
Qed.

Lemma add_then_delete_witness :
  let ts := fun t : datetime => Z.of_N (micros t) in
  let now := mkDatetime 2026 11 3 42%N in
  let data : item := <["name" := PStr "Bread"]> (<["expiry_date" := PStr "2030-01-01"]> ∅) in
  let a : item := <["id" := PInt 1]> (<["owner" := PStr "ann"]> ∅) in
  let w := mkWorld (mkStore Missing (Parsed [a]) Missing Missing) [] in
  let out := add_item ts data "ann" now now w in
  (exists it, out = (Ok it, out.2)) /\
  forallb (readable (ts now)) (load [] (fresh_json (disk w))) = true /\
  existsb (targeted (ts now) "ann") (load [] (fresh_json (disk w))) = false /\
  exists w2,
    delete_item (ts now) "ann" out.2 = (Ok true, w2) /\
    load [] (fresh_json (disk w2)) = [a].
Proof.
  intros ts now data a w out.
  assert (exists it, out = (Ok it, out.2)) as [it Hit] by (eexists; reflexivity).
  assert (forallb (readable (ts now)) (load [] (fresh_json (disk w))) = true) as Hr
    by reflexivity.
  assert (existsb (targeted (ts now) "ann") (load [] (fresh_json (disk w))) = false)
    as Hn by reflexivity.
  split; [by exists it|]. split; [exact Hr|]. split; [exact Hn|].
  exact (add_then_delete ts data "ann" now now w out.2 it Hit Hr Hn).
Defined.

(** X11.  An item just added is listed: when [get_inventory] returns
    for the user who added it, on a day that is not after the item's
    [expiry_date] (compared as strings), the record [add_item] returned is
    in the fresh list, unchanged. *)
Theorem add_then_listed (timestamp_micros : datetime -> Z) (data : item)
  (username : string) (now_id now_added now1 now2 : datetime) (w w1 w2 : world)
  (it : item) (inv : inventory) :
  add_item timestamp_micros data username now_id now_added w = (Ok it, w1) ->
  lex_expired (strftime_ymd now1) it = false ->
  get_inventory username now1 now2 w1 = (Ok inv, w2) ->
  In it (inv_fresh inv).
Proof.
  intros [Hnew ->]%add_item_returns Hlex.
  destruct (new_item_fields _ _ _ _ _ _ Hnew) as (_ & _ & _ & Hcat & Howner & _).
  unfold get_inventory, sweep, purge_pass, fresh_pass. rewrite fresh_pass_from. simpl.
  destruct (for_each _ _ _) as [[fe d]|e]; simpl; [|done].
  intros [= <- _]. simpl.
  assert (healed it = it) as Hh.
  { apply healed_fixed. unfold lacks_category. by rewrite Hcat. }
  apply List.filter_In. split.
  - apply List.filter_In. split.
    + rewrite List.map_app. apply in_or_app. right. simpl. left. exact Hh.
    + by rewrite Hlex.
  - unfold owned_by, get. rewrite Howner. simpl. apply String.eqb_refl.
Qed.

Lemma add_then_listed_witness :
  let ts := fun t : datetime => Z.of_N (micros t) in
  let now := mkDatetime 2026 11 3 42%N in
  let data : item := <["name" := PStr "Milk"]> (<["expiry_date" := PStr "2026-11-03"]> ∅) in
  let w := mkWorld (mkStore Missing Corrupt Missing Missing) [] in
  let out := add_item ts data "ann" now now w in
  let out' := get_inventory "ann" now now out.2 in
  exists it inv,
    out = (Ok it, out.2) /\
    lex_expired (strftime_ymd now) it = false /\
    out' = (Ok inv, out'.2) /\
    In it (inv_fresh inv).
Proof.
  intros ts now data w out out'.
  assert (exists it, out = (Ok it, out.2) /\ lex_expired (strftime_ymd now) it = false)
    as (it & Hit & Hlex) by (eexists; split; reflexivity).
  assert (exists inv, out' = (Ok inv, out'.2)) as [inv Hinv] by (eexists; reflexivity).
  exists it, inv. split; [exact Hit|]. split; [exact Hlex|]. split; [exact Hinv|].
  exact (add_then_listed ts data "ann" now now now now w out.2 out'.2 it inv
           Hit Hlex Hinv).
Defined.

(** ** The category registry *)

Lemma ascii_compare_trans a b c :
  Ascii.compare a b = Lt -> Ascii.compare b c = Lt -> Ascii.compare a c = Lt.
Proof.
  unfold Ascii.compare. rewrite !N.compare_lt_iff. lia.
Qed.

Lemma string_compare_trans a b c :
  String.compare a b = Lt -> String.compare b c = Lt -> String.compare a c = Lt.
Proof.
  revert b c. induction a as [|x a IH]; intros [|y b] [|z c]; simpl; try done.
  destruct (Ascii.compare x y) eqn:Exy; try done;
    destruct (Ascii.compare y z) eqn:Eyz; try done.
  - apply Ascii.compare_eq_iff in Exy as ->, Eyz as ->.
    replace (Ascii.compare z z) with Eq; [apply IH|].
    symmetry. unfold Ascii.compare. apply N.compare_refl.
  - apply Ascii.compare_eq_iff in Exy as ->. by rewrite Eyz.
  - apply Ascii.compare_eq_iff in Eyz as <-. by rewrite Exy.
  - by rewrite (ascii_compare_trans _ _ _ Exy Eyz).
Qed.

Lemma string_leb_trans a b c :
  String.leb a b = true -> String.leb b c = true -> String.leb a c = true.
Proof.
  unfold String.leb.
  destruct (String.compare a b) eqn:Eab; try done;
    destruct (String.compare b c) eqn:Ebc; try done; intros _ _.
  - apply String.compare_eq_iff in Eab as ->. by rewrite Ebc.
  - apply String.compare_eq_iff in Eab as ->. by rewrite Ebc.
  - apply String.compare_eq_iff in Ebc as <-. by rewrite Eab.
  - by rewrite (string_compare_trans _ _ _ Eab Ebc).
Qed.

Lemma string_ltb_leb a b : String.ltb a b = true -> String.leb a b = true.
Proof. unfold String.ltb, String.leb. by destruct (String.compare a b). Qed.

Lemma string_not_ltb_leb a b : String.ltb a b = false -> String.leb b a = true.
Proof.
  unfold String.ltb, String.leb. rewrite (String.compare_antisym a b).
  by destruct (String.compare b a).
Qed.

Lemma insert_by_name_sorted k x l :
  Sorted by_key l -> Sorted by_key (insert_by_name k x l).
Proof.
  induction 1 as [|[k' y] l Hl IH Hhd]; simpl.
  - repeat constructor.
  - destruct (String.ltb k k') eqn:E.
    + constructor; [by constructor|]. constructor. by apply string_ltb_leb.
    + constructor; [exact IH|].
      destruct l as [|[k'' z] l]; simpl.
      * constructor. by apply string_not_ltb_leb.
      * destruct (String.ltb k k''); constructor.
        -- by apply string_not_ltb_leb.
        -- by inversion Hhd.
Qed.

Lemma sort_sorted l acc :
  Sorted by_key acc ->
  Sorted by_key (fold_left (fun acc kx => insert_by_name kx.1 kx.2 acc) l acc).
Proof.
  revert acc. induction l as [|[k x] l IH]; intros acc Hacc; simpl; [done|].
  apply IH. by apply insert_by_name_sorted.
Qed.

Lemma insert_by_name_Forall (P : string * item -> Prop) k x l :
  P (k, x) -> Forall P l -> Forall P (insert_by_name k x l).
Proof.
  intros Hk. induction 1 as [|[k' y] l Hy Hl IH]; simpl.
  - by repeat constructor.
  - destruct (String.ltb k k'); repeat constructor; auto.
Qed.

Lemma sort_Forall (P : string * item -> Prop) l acc :
  Forall P l -> Forall P acc ->
  Forall P (fold_left (fun acc kx => insert_by_name kx.1 kx.2 acc) l acc).
Proof.
  intros Hl. revert acc. induction Hl as [|[k x] l Hx _ IH]; intros acc Hacc; simpl.
  - done.
  - apply IH. by apply insert_by_name_Forall.
Qed.

Lemma getitem_Ok (d : item) k v : getitem d k = Ok v -> d !! k = Some v.
Proof. unfold getitem. destruct (d !! k); by intros [= <-]. Qed.

Lemma keys_label values keys names :
  map_r (fun x : item => getitem x "name") values = Ok keys ->
  map_r as_str keys = Ok names ->
  Forall (fun kx : string * item => kx.2 !! "name" = Some (PStr kx.1))
         (combine names values).
Proof.
  revert keys names. induction values as [|x values IH]; intros keys names; simpl.
  - intros [= <-]. simpl. intros [= <-]. constructor.
  - destruct (getitem x "name") as [v|] eqn:Ex; simpl; [|done].
    apply getitem_Ok in Ex.
    destruct (map_r _ values) as [keys'|] eqn:Ek; simpl; [|done].
    intros [= <-]. simpl.
    destruct v; simpl; try done.
    destruct (map_r as_str keys') as [names'|] eqn:En; simpl; [|done].
    intros [= <-]. simpl. constructor; [done|]. by eapply IH.
Qed.

(** X12.  The list [get_categories] returns is sorted by name, in
    ascending order of the code points: every record has a string name,
    and the names are in non-decreasing order. *)
Theorem get_categories_sorted (username : string) (s : store) (cats : list item) :
  get_categories username s = Ok cats ->
  exists names,
    Forall2 (fun c n => c !! "name" = Some (PStr n)) cats names /\
    StronglySorted (fun a b => String.leb a b = true) names.
Proof.
  unfold get_categories.
  destruct (for_each _ _ _) as [cat_map|]; simpl; [|done].
  unfold sorted_by_name.
  destruct (map_r _ _) as [keys|] eqn:Ek; simpl; [|done].
  destruct (map_r as_str keys) as [names|] eqn:En; simpl; [|done].
  intros [= <-].
  set (sorted := fold_left _ _ _).
  assert (Sorted by_key sorted) as Hs by (apply sort_sorted; constructor).
  assert (Forall (fun kx : string * item => kx.2 !! "name" = Some (PStr kx.1)) sorted)
    as Hl by (apply sort_Forall; [by eapply keys_label | constructor]).
  exists (List.map fst sorted). split.
  - clear Hs. induction Hl as [|[k x] l Hx _ IH]; simpl; by constructor.
  - apply Sorted_StronglySorted in Hs.
    + clear Hl. induction Hs as [|[k x] l _ IH Hall]; simpl; constructor; [exact IH|].
      clear IH. induction Hall as [|[k' y] l Hy _ IH]; simpl; by constructor.
    + intros a b c. unfold by_key. apply string_leb_trans.
Qed.

Lemma get_categories_sorted_witness :
  let snacks : item :=
    <["name" := PStr "Snacks"]> (<["owner" := PStr "ann"]> (<["type" := PStr "custom"]> ∅)) in
  let s := mkStore Missing Missing Missing (Parsed [snacks]) in
  let cats := [system_category "Documents"; system_category "Food";
               system_category "General"; system_category "Medicine";
               system_category "Personal Care"; snacks] in
  get_categories "ann" s = Ok cats /\
  exists names,
    Forall2 (fun c n => c !! "name" = Some (PStr n)) cats names /\
    StronglySorted (fun a b => String.leb a b = true) names.
Proof.
  intros snacks s cats.
  assert (get_categories "ann" s = Ok cats) as H by reflexivity.
  split; [exact H|].
  exact (get_categories_sorted "ann" s cats H).
Defined.

Lemma for_each_invariant_in {A S : Type} (P : S -> Prop) (body : S -> A -> result S)
  (l : list A) (s s' : S) :
  (forall s x s', In x l -> P s -> body s x = Ok s' -> P s') ->
  P s -> for_each body l s = Ok s' -> P s'.
Proof.
  revert s. induction l as [|x l IH]; intros s Hstep Hs; simpl.
  - by intros [= <-].
  - destruct (body s x) as [s1|e] eqn:E; simpl; [|done].
    apply IH.
    + intros t y t' Hy. apply Hstep. by right.
    + eapply Hstep; [by left | exact Hs | exact E].
Qed.

Lemma owned_by_owner username c : owned_by username c = true -> get c "owner" = PStr username.
Proof.
  unfold owned_by. destruct (get c "owner"); simpl; try done.
  by intros ->%String.eqb_eq.
Qed.

(** X13.  [get_categories] returns nothing of another user: each record
    of the list is one of the five system constants or a record of the
    categories document whose owner is the caller. *)
Theorem get_categories_own_only (username : string) (s : store) (cats : list item) :
  get_categories username s = Ok cats ->
  Forall (fun c => In c DEFAULT_CATEGORIES \/
                   (In c (load [] (categories_json s)) /\ get c "owner" = PStr username))
         cats.
Proof.
  unfold get_categories.
  destruct (for_each _ _ _) as [cat_map|] eqn:E; simpl; [|done].
  intros Hsort.
  apply (for_each_invariant_in
           (fun m => Forall (fun e : pyval * item => In e.2 DEFAULT_CATEGORIES \/
              (In e.2 (load [] (categories_json s)) /\ get e.2 "owner" = PStr username)) m))
    in E.
  - apply List.Forall_forall. intros c Hc.
    apply (sorted_by_name_In _ _ _ Hsort), in_map_iff in Hc as (e & <- & He).
    rewrite List.Forall_forall in E. by apply E.
  - intros m c m' Hc Hm. unfold category_step.
    destruct (owned_by username c) eqn:Eo; [|by intros [= <-]].
    unfold getitem, cat_map_mem, mbind, result_bind, mret, result_ret.
    destruct (c !! "name") as [name|]; cbv beta iota; [|done].
    destruct (hashable name); cbv beta iota; [|done].
    destruct (existsb _ m); intros [= <-]; [done|].
    apply Forall_app. split; [done|]. constructor; [|constructor].
    right. split; [done | by apply owned_by_owner].
  - unfold initial_cat_map, DEFAULT_CATEGORIES.
    apply List.Forall_forall. intros e (n & <- & Hn)%in_map_iff. left.
    exact (in_map system_category _ _ Hn).
Qed.

Lemma get_categories_own_only_witness :
  let snacks : item :=
    <["name" := PStr "Snacks"]> (<["owner" := PStr "ann"]> (<["type" := PStr "custom"]> ∅)) in
  let tools : item :=
    <["name" := PStr "Tools"]> (<["owner" := PStr "bob"]> (<["type" := PStr "custom"]> ∅)) in
  let s := mkStore Missing Missing Missing (Parsed [tools; snacks]) in
  let cats := [system_category "Documents"; system_category "Food";
               system_category "General"; system_category "Medicine";
               system_category "Personal Care"; snacks] in
  get_categories "ann" s = Ok cats /\
  Forall (fun c => In c DEFAULT_CATEGORIES \/
                   (In c (load [] (categories_json s)) /\ get c "owner" = PStr "ann"))
         cats.
Proof.
  intros snacks tools s cats.
  assert (get_categories "ann" s = Ok cats) as H by reflexivity.
  split; [exact H|].
  exact (get_categories_own_only "ann" s cats H).
Defined.
Lemma duplicate_of_collides name_lower username c :
  name_readable username c ->
  (collides name_lower username c = true ->
     exists msg, duplicate_of name_lower username c = Ok (Some msg)) /\
  (collides name_lower username c = false ->
     duplicate_of name_lower username c = Ok None).
Proof.
  unfold name_readable, duplicate_of, collides, name_lower_is, getitem.
  destruct (py_eq (get c "type") (PStr "system")) eqn:Es;
    destruct (owned_by username c) eqn:Eo; simpl; intros Hname.
  4: { split; [done|]. done. }
  all: destruct (Hname eq_refl) as [s ->]; simpl;
    destruct (String.eqb (lower s) name_lower); simpl; split; try done; eauto.
Qed.

Lemma first_duplicate_collides name_lower username l :
  Forall (name_readable username) l ->
  (existsb (collides name_lower username) l = true ->
     exists msg, first_duplicate name_lower username l = Ok (Some msg)) /\
  (existsb (collides name_lower username) l = false ->
     first_duplicate name_lower username l = Ok None).
Proof.
  induction 1 as [|c l Hc _ [IH1 IH2]]; simpl; [by split|].
  destruct (duplicate_of_collides name_lower username c Hc) as [H1 H2].
  destruct (collides name_lower username c); simpl.
  - split; [|done]. intros _. destruct (H1 eq_refl) as [msg ->]. simpl. by exists msg.
  - rewrite (H2 eq_refl). simpl. by split.
Qed.

Lemma name_ascii_readable username c : name_ascii username c -> name_readable username c.
Proof. intros H Hc. destruct (H Hc) as (s & Hs & _). by exists s. Qed.

(** X14.  For names that are ASCII text - the new one and those the
    duplicate check reads - [add_category] is refused exactly when a
    system record of the document, or a record the caller owns, has the
    same name up to letter case; otherwise it appends a custom record
    owned by the caller and saves.  A same-named category of another user
    is no obstacle. *)
Theorem add_category_unique (timestamp_micros : datetime -> Z) (name username : string)
  (now : datetime) (w : world) :
  ascii_string name = true ->
  Forall (name_ascii username) (load [] (categories_json (disk w))) ->
  let all_cats := load [] (categories_json (disk w)) in
  let new_cat : item :=
    <["id" := PInt (timestamp_micros now)]>
    (<["name" := PStr name]>
    (<["type" := PStr "custom"]>
    (<["owner" := PStr username]> ∅))) in
  (existsb (collides (lower name) username) all_cats = true ->
     exists msg, add_category timestamp_micros name username now w = (Ok (inl msg), w)) /\
  (existsb (collides (lower name) username) all_cats = false ->
     add_category timestamp_micros name username now w
       = (Ok (inr new_cat), save_categories (all_cats ++ [new_cat]) w)).
Proof.
  intros _ Hall all_cats new_cat. unfold add_category. fold all_cats.
  assert (Forall (name_readable username) all_cats) as Hread.
  { eapply Forall_impl; [exact Hall|]. apply name_ascii_readable. }
  destruct (first_duplicate_collides (lower name) username all_cats Hread) as [H1 H2].
  split; intros Hex.
  - destruct (H1 Hex) as [msg ->]. by exists msg.
  - by rewrite (H2 Hex).
Qed.

Lemma add_category_unique_witness :
  let ts := fun t : datetime => Z.of_N (micros t) in
  let now := mkDatetime 2026 11 3 42%N in
  let snacks : item :=
    <["id" := PInt 5]> (<["name" := PStr "Snacks"]>
    (<["type" := PStr "custom"]> (<["owner" := PStr "bob"]> ∅))) in
  let w := mkWorld (mkStore Missing Missing Missing (Parsed (seeded_categories ++ [snacks]))) [] in
  ascii_string "FOOD" = true /\ ascii_string "snacks" = true /\
  Forall (name_ascii "ann") (load [] (categories_json (disk w))) /\
  (exists msg, add_category ts "FOOD" "ann" now w = (Ok (inl msg), w)) /\
  (exists c, add_category ts "snacks" "ann" now w
             = (Ok (inr c), save_categories (seeded_categories ++ [snacks; c]) w)).
Proof.
  intros ts now snacks w.
  assert (ascii_string "FOOD" = true) as Hf by reflexivity.
  assert (ascii_string "snacks" = true) as Hs by reflexivity.
  assert (Forall (name_ascii "ann") (load [] (categories_json (disk w)))) as Hall.
  { repeat constructor; intros _; eexists; split; reflexivity. }
  split; [exact Hf|]. split; [exact Hs|]. split; [exact Hall|].
  destruct (add_category_unique ts "FOOD" "ann" now w Hf Hall) as [Hfood _].
  destruct (add_category_unique ts "snacks" "ann" now w Hs Hall) as [_ Hsnacks].
  split.
  - apply Hfood. reflexivity.
  - eexists. rewrite Hsnacks by reflexivity. reflexivity.
Defined.

Lemma duplicate_of_system name_lower username c s :
  get c "type" = PStr "system" -> c !! "name" = Some (PStr s) ->
  duplicate_of name_lower username c =
    Ok (if String.eqb (lower s) name_lower
        then Some "Category already exists (System)" else None).
Proof.
  intros Ht Hn. unfold duplicate_of, name_lower_is, getitem. rewrite Ht, Hn. simpl.
  destruct (String.eqb (lower s) name_lower); simpl; [done|].
  by destruct (owned_by username c).
Qed.

(** X15.  After the bootstrap, [add_category] refuses for every user a
    name that equals a system name up to (ASCII) letter case, with the
    message of the system check, and writes nothing. *)
Theorem add_category_system_name_refused (timestamp_micros : datetime -> Z)
  (name username n : string) (now : datetime)
  (users : file (gmap string item)) (fresh expired : file (list item))
  (log : list file_key) :
  In n system_names -> lower name = lower n ->
  let w := mkWorld (mkStore users fresh expired (Parsed seeded_categories)) log in
  add_category timestamp_micros name username now w
    = (Ok (inl "Category already exists (System)"), w).
Proof.
  intros Hn Hlow w. unfold add_category. cbn [load categories_json disk w].
  change seeded_categories with
    [seed_record 0 (system_category "General"); seed_record 1 (system_category "Food");
     seed_record 2 (system_category "Medicine");
     seed_record 3 (system_category "Documents");
     seed_record 4 (system_category "Personal Care")].
  cbn [first_duplicate].
  rewrite (duplicate_of_system _ _ (seed_record 0 _) "General") by reflexivity.
  rewrite (duplicate_of_system _ _ (seed_record 1 _) "Food") by reflexivity.
  rewrite (duplicate_of_system _ _ (seed_record 2 _) "Medicine") by reflexivity.
  rewrite (duplicate_of_system _ _ (seed_record 3 _) "Documents") by reflexivity.
  rewrite (duplicate_of_system _ _ (seed_record 4 _) "Personal Care") by reflexivity.
  rewrite Hlow. unfold system_names in Hn. simpl in Hn.
  by destruct Hn as [<-|[<-|[<-|[<-|[<-|[]]]]]].
Qed.

Lemma add_category_system_name_refused_witness :
  let ts := fun t : datetime => Z.of_N (micros t) in
  let now := mkDatetime 2026 11 3 42%N in
  let w := mkWorld (mkStore Missing Missing Missing (Parsed seeded_categories)) [] in
  In "Personal Care" system_names /\
  lower "personal CARE" = lower "Personal Care" /\
  add_category ts "personal CARE" "ann" now w
    = (Ok (inl "Category already exists (System)"), w).
Proof.
  intros ts now w.
  assert (In "Personal Care" system_names) as Hn by (do 4 right; left; reflexivity).
  assert (lower "personal CARE" = lower "Personal Care") as Hl by reflexivity.
  split; [exact Hn|]. split; [exact Hl|].
  exact (add_category_system_name_refused ts "personal CARE" "ann" "Personal Care" now
           Missing Missing Missing [] Hn Hl).
Defined.





(** ** delete_category *)


Lemma is_target_named name username c :
  is_Some (c !! "name") -> is_target name username c = Ok (deletable name username c).
Proof.
  intros [v Hv]. unfold is_target, deletable, getitem, get. by rewrite Hv.
Qed.

Lemma find_r_none {A : Type} (p : A -> result bool) (l : list A) :
  Forall (fun x => p x = Ok false) l -> find_r p l = Ok None.
Proof. induction 1 as [|x l Hx _ IH]; simpl; [done|]. by rewrite Hx. Qed.


(** X17.  [delete_category] is refused, and nothing is written, unless
    a record has that exact name, that owner and the type custom: the
    system categories and the categories of other users cannot be
    deleted.  (The records must have a name.) *)
Theorem delete_category_denied (name username : string) (w : world) :
  Forall (fun c : item => is_Some (c !! "name")) (load [] (categories_json (disk w))) ->
  existsb (deletable name username) (load [] (categories_json (disk w))) = false ->
  delete_category name username w
    = (Ok (false, "Category not found or permission denied."), w).
Proof.
  intros Hnamed Hnone. unfold delete_category.
  rewrite find_r_none; [done|].
  apply existsb_false_Forall in Hnone.
  rewrite List.Forall_forall in Hnamed, Hnone. apply List.Forall_forall.
  intros c Hc. rewrite (is_target_named _ _ _ (Hnamed c Hc)). by rewrite (Hnone c Hc).
Qed.

Lemma delete_category_denied_witness :
  let tools : item :=
    <["id" := PInt 9]> (<["name" := PStr "Tools"]>
    (<["type" := PStr "custom"]> (<["owner" := PStr "bob"]> ∅))) in
  let w := mkWorld (mkStore Missing Missing Missing
                      (Parsed (seeded_categories ++ [tools]))) [] in
  Forall (fun c : item => is_Some (c !! "name")) (load [] (categories_json (disk w))) /\
  existsb (deletable "Tools" "ann") (load [] (categories_json (disk w))) = false /\
  existsb (deletable "Food" "system") (load [] (categories_json (disk w))) = false /\
  delete_category "Tools" "ann" w
    = (Ok (false, "Category not found or permission denied."), w) /\
  delete_category "Food" "system" w
    = (Ok (false, "Category not found or permission denied."), w).
Proof.
  intros tools w.
  assert (Forall (fun c : item => is_Some (c !! "name"))
                 (load [] (categories_json (disk w)))) as Hnamed.
  { repeat constructor; eexists; reflexivity. }
  assert (existsb (deletable "Tools" "ann") (load [] (categories_json (disk w))) = false)
    as H1 by reflexivity.
  assert (existsb (deletable "Food" "system") (load [] (categories_json (disk w))) = false)
    as H2 by reflexivity.
  split; [exact Hnamed|]. split; [exact H1|]. split; [exact H2|]. split.
  - exact (delete_category_denied "Tools" "ann" w Hnamed H1).
  - exact (delete_category_denied "Food" "system" w Hnamed H2).
Defined.

Lemma migrate_items_categories name username k w :
  categories_json (disk (migrate_items name username k w)) = categories_json (disk w).
Proof.
  unfold migrate_items. destruct k; try done;
    destruct (migrate_loop _ _ _ _) as [items [|]]; done.
Qed.



(** ** DataManager: save and bootstrap *)

(** X19.  [save] changes no file but the target and the temporary file,
    whether it succeeds or fails, and wherever it fails. *)
Theorem save_frame (tmp filepath text p : string) (flt : DataManager.fault)
  (fs : gmap string string) :
  p <> filepath -> p <> tmp ->
  (DataManager.save tmp flt filepath text fs).2 !! p = fs !! p.
Proof.
  intros Hp Ht. unfold DataManager.save, DataManager.save_try.
  destruct flt as [| | | | |[partial|]]; simpl; rewrite ?handler_removes;
    try (by rewrite ?lookup_insert_ne, ?lookup_delete_ne, ?lookup_insert_ne).
  destruct (bool_decide _);
    by rewrite ?lookup_delete_ne, ?lookup_insert_ne, ?lookup_insert_ne.
Qed.

Lemma save_frame_witness :
  let fs : gmap string string := <["data/users.json" := "{}"]> ∅ in
  "data/users.json" <> "data/fresh_inventory.json" /\
  "data/users.json" <> "data/tmpab12" /\
  (DataManager.save "data/tmpab12" (DataManager.AtMove (Some "["))
     "data/fresh_inventory.json" "[]" fs).2
    !! "data/users.json" = Some "{}".
Proof.
  intros fs.
  assert ("data/users.json" <> "data/fresh_inventory.json") as H1 by discriminate.
  assert ("data/users.json" <> "data/tmpab12") as H2 by discriminate.
  split; [exact H1|]. split; [exact H2|].
  rewrite (save_frame "data/tmpab12" "data/fresh_inventory.json" "[]" "data/users.json"
             (DataManager.AtMove (Some "[")) fs H1 H2).
  reflexivity.
Defined.

Lemma save_failure_target_untouched_witness :
  let fs : gmap string string := <["data/fresh_inventory.json" := "[1]"]> ∅ in
  "data/tmpab12" <> "data/fresh_inventory.json" /\
  DataManager.AtFsync <> DataManager.NoFault /\
  DataManager.AtMove (Some "[1,") <> DataManager.NoFault /\
  (DataManager.save "data/tmpab12" DataManager.AtFsync
     "data/fresh_inventory.json" "[1, 2]" fs).2 !! "data/fresh_inventory.json"
    = Some "[1]" /\
  (DataManager.save "data/tmpab12" (DataManager.AtMove (Some "[1,"))
     "data/fresh_inventory.json" "[1, 2]" fs).2 !! "data/fresh_inventory.json"
    = Some "[1,".
Proof.
  intros fs.
  assert ("data/tmpab12" <> "data/fresh_inventory.json") as H1 by discriminate.
  assert (DataManager.AtFsync <> DataManager.NoFault) as H2 by discriminate.
  assert (DataManager.AtMove (Some "[1,") <> DataManager.NoFault) as H3 by discriminate.
  split; [exact H1|]. split; [exact H2|]. split; [exact H3|]. split.
  - destruct (save_failure_target_untouched "data/tmpab12" DataManager.AtFsync
                "data/fresh_inventory.json" "[1, 2]" fs H1 H2) as [_ Ht].
    rewrite Ht. reflexivity.
  - destruct (save_failure_target_untouched "data/tmpab12"
                (DataManager.AtMove (Some "[1,"))
                "data/fresh_inventory.json" "[1, 2]" fs H1 H3) as [_ Ht].
    rewrite Ht. reflexivity.
Defined.

Lemma save_success_witness :
  let fs : gmap string string := <["data/fresh_inventory.json" := "[1]"]> ∅ in
  "data/tmpab12" <> "data/fresh_inventory.json" /\
  (DataManager.save "data/tmpab12" DataManager.NoFault
     "data/fresh_inventory.json" "[1, 2]" fs).1 = Ok tt /\
  (DataManager.save "data/tmpab12" DataManager.NoFault
     "data/fresh_inventory.json" "[1, 2]" fs).2 !! "data/fresh_inventory.json"
    = Some "[1, 2]" /\
  (DataManager.save "data/tmpab12" DataManager.NoFault
     "data/fresh_inventory.json" "[1, 2]" fs).2 !! "data/tmpab12" = None.
Proof.
  intros fs.
  assert ("data/tmpab12" <> "data/fresh_inventory.json") as H1 by discriminate.
  split; [exact H1|].
  exact (save_success "data/tmpab12" "data/fresh_inventory.json" "[1, 2]" fs H1).
Defined.

(** X22.  A save that fails before the temporary file exists, or in
    [flush] or [fsync], or in a move that had not touched the target,
    leaves the whole file system as it was, the temporary name being
    new. *)
Theorem save_late_failure_restores (tmp filepath text : string) (flt : DataManager.fault)
  (fs : gmap string string) :
  fs !! tmp = None ->
  match flt with
  | DataManager.AtCreate | DataManager.AtFlush _ | DataManager.AtFsync
  | DataManager.AtMove None =>
      exists e, DataManager.save tmp flt filepath text fs = (Raise e, fs)
  | _ => True
  end.
Proof.
  intros Hnew. unfold DataManager.save, DataManager.save_try.
  destruct flt as [| | | | |[partial|]]; simpl; rewrite ?handler_removes; try done;
    eexists; by rewrite ?delete_id.
Qed.

Lemma save_late_failure_restores_witness :
  let fs : gmap string string := <["data/fresh_inventory.json" := "[1]"]> ∅ in
  fs !! "data/tmpab12" = None /\
  exists e,
    DataManager.save "data/tmpab12" DataManager.AtFsync "data/fresh_inventory.json" "[1, 2]" fs
      = (Raise e, fs).
Proof.
  intros fs.
  assert (fs !! "data/tmpab12" = None) as H by reflexivity.
  split; [exact H|].
  exact (save_late_failure_restores "data/tmpab12" "data/fresh_inventory.json" "[1, 2]"
           DataManager.AtFsync fs H).
Defined.

(** X23.  [ensure_directory] creates the files that do not exist and
    nothing else: a file that exists - readable or not - is left as it is,
    a missing one gets its initial document (the seeded system records
    for the categories), afterwards every file exists, and a second call
    changes and saves nothing. *)
Theorem ensure_directory_idempotent (w : world) :
  let w' := DataManager.ensure_directory w in
  DataManager.ensure_directory w' = w' /\
  users_json (disk w')
    = match users_json (disk w) with Missing => Parsed ∅ | f => f end /\
  fresh_json (disk w')
    = match fresh_json (disk w) with Missing => Parsed [] | f => f end /\
  expired_json (disk w')
    = match expired_json (disk w) with Missing => Parsed [] | f => f end /\
  categories_json (disk w')
    = match categories_json (disk w) with
      | Missing => Parsed seeded_categories
      | f => f
      end.
Proof.
  destruct w as [[u f e c] log].
  destruct u, f, e, c; cbv zeta; repeat split.
Qed.
(** ** ISO date strings *)

Lemma digit_cases n :
  n mod 10 = 0 \/ n mod 10 = 1 \/ n mod 10 = 2 \/ n mod 10 = 3 \/ n mod 10 = 4 \/
  n mod 10 = 5 \/ n mod 10 = 6 \/ n mod 10 = 7 \/ n mod 10 = 8 \/ n mod 10 = 9.
Proof. pose proof (Z.mod_pos_bound n 10). lia. Qed.

Lemma digit_compare x y : Ascii.compare (digit x) (digit y) = (x mod 10 ?= y mod 10).
Proof.
  unfold digit.
  destruct (digit_cases x) as [->|[->|[->|[->|[->|[->|[->|[->|[->| ->]]]]]]]]];
    destruct (digit_cases y) as [->|[->|[->|[->|[->|[->|[->|[->|[->| ->]]]]]]]]];
    reflexivity.
Qed.
Lemma days_in_month_le y m : days_in_month y m <= 31.
Proof.
  unfold days_in_month. destruct (_ && _); [lia|].
  generalize (Z.to_nat m). intros n.
  do 13 (destruct n as [|n]; [simpl; lia|]). simpl. destruct n; lia.
Qed.
Lemma digits2 m : 0 <= m < 100 -> m = 10 * ((m / 10) mod 10) + m mod 10.
Proof. intros. Z.div_mod_to_equations. lia. Qed.
Lemma digits4 y : 0 <= y < 10000 ->
  y = 1000 * ((y / 1000) mod 10) + 100 * ((y / 100) mod 10) + 10 * ((y / 10) mod 10) + y mod 10.
Proof.
  intros Hy. rewrite !Z.mod_eq by lia. rewrite !Z.div_div by lia.
  change (1000 * 10) with 10000. change (100 * 10) with 1000. change (10 * 10) with 100.
  rewrite (Z.div_small y 10000) by lia. lia.
Qed.

(** The string comparison of pipeline 1 is the order of the calendar on
    ISO dates: [strftime] of one day is less than [strftime] of another
    exactly when the first day is earlier. *)
Lemma iso_string_order (a b : datetime) :
  valid_date a -> valid_date b ->
  String.ltb (strftime_ymd a) (strftime_ymd b) = true <-> earlier a b.
Proof.
  intros (Hya & Hma & Hda) (Hyb & Hmb & Hdb).
  pose proof (days_in_month_le (year a) (month a)).
  pose proof (days_in_month_le (year b) (month b)).
  pose proof (digits4 (year a) ltac:(lia)) as Da.
  pose proof (digits4 (year b) ltac:(lia)) as Db.
  pose proof (digits2 (month a) ltac:(lia)) as Ma.
  pose proof (digits2 (month b) ltac:(lia)) as Mb.
  pose proof (digits2 (day a) ltac:(lia)) as Ea.
  pose proof (digits2 (day b) ltac:(lia)) as Eb.
  unfold earlier, strftime_ymd, pad4, pad2, String.ltb.
  cbv delta [String.append String.compare] fix beta iota.
  rewrite !digit_compare. change (Ascii.compare "-" "-") with Eq. cbv iota.
  repeat match goal with
         | |- context [?x mod 10] =>
             let d := fresh "d" in
             pose proof (Z.mod_pos_bound x 10 ltac:(lia));
             set (d := x mod 10) in *; clearbody d
         end.
  repeat match goal with
         | |- context [?x ?= ?y] => destruct (Z.compare_spec x y)
         end;
    (split; [intros ?; first [discriminate | lia]
            | intros ?; first [reflexivity | exfalso; lia]]).
Qed.

Lemma digit_val_digit n : digit_val (digit n) = Some (n mod 10).
Proof.
  unfold digit.
  destruct (digit_cases n) as [->|[->|[->|[->|[->|[->|[->|[->|[->| ->]]]]]]]]];
    reflexivity.
Qed.

Lemma re_Y_pad4 y r : 0 <= y < 10000 -> re_Y (String.append (pad4 y) r) = [(y, r)].
Proof.
  intros Hy. unfold pad4, pad2. cbv delta [String.append] fix beta iota.
  unfold re_Y. rewrite !digit_val_digit.
  do 2 f_equal. pose proof (digits4 y Hy). lia.
Qed.

Lemma re_m_pad2 m r :
  1 <= m <= 12 -> exists tl, re_m (String.append (pad2 m) r) = (m, r) :: tl.
Proof.
  intros Hm. unfold pad2. cbv delta [String.append] fix beta iota.
  unfold re_m, two_digits. rewrite !digit_val_digit.
  pose proof (digits2 m ltac:(lia)) as Dm.
  pose proof (Z.mod_pos_bound (m / 10) 10 ltac:(lia)).
  pose proof (Z.mod_pos_bound m 10 ltac:(lia)).
  set (x := (m / 10) mod 10) in *. set (y := m mod 10) in *. clearbody x y.
  replace (((x =? 1) && (y <=? 2)) || ((x =? 0) && (1 <=? y))) with true.
  - replace (x * 10 + y) with m by lia. cbn [app]. by eexists.
  - symmetry. rewrite !orb_true_iff, !andb_true_iff, !Z.eqb_eq, !Z.leb_le. lia.
Qed.

Lemma re_d_pad2 d :
  1 <= d <= 31 -> exists tl, re_d (pad2 d) = (d, "") :: tl.
Proof.
  intros Hd. unfold pad2, re_d, two_digits. rewrite !digit_val_digit.
  pose proof (digits2 d ltac:(lia)) as Dd.
  pose proof (Z.mod_pos_bound (d / 10) 10 ltac:(lia)).
  pose proof (Z.mod_pos_bound d 10 ltac:(lia)).
  set (x := (d / 10) mod 10) in *. set (y := d mod 10) in *. clearbody x y.
  replace (((x =? 3) && (y <=? 1)) || ((1 <=? x) && (x <=? 2)) || ((x =? 0) && (1 <=? y)))
    with true.
  - replace (x * 10 + y) with d by lia. cbn [app]. by eexists.
  - symmetry. rewrite !orb_true_iff, !andb_true_iff, !Z.eqb_eq, !Z.leb_le. lia.
Qed.

Lemma re_dash_dash s : re_dash (String.append "-" s) = [(tt, s)].
Proof. reflexivity. Qed.

(** [strptime] reads back what [strftime] wrote. *)
Lemma strptime_strftime (t : datetime) :
  valid_date t -> strptime_ymd (PStr (strftime_ymd t)) = Ok (toordinal t, 0%N).
Proof.
  intros (Hy & Hm & Hd).
  pose proof (days_in_month_le (year t) (month t)).
  unfold strptime_ymd, regex_ymd, strftime_ymd.
  rewrite re_Y_pad4 by lia. cbn [flat_map].
  rewrite re_dash_dash. cbn [flat_map].
  destruct (re_m_pad2 (month t) (String.append "-" (pad2 (day t))) Hm) as [tl1 ->].
  cbn [flat_map].
  rewrite re_dash_dash. cbn [flat_map].
  destruct (re_d_pad2 (day t) ltac:(lia)) as [tl2 ->].
  cbn [List.map app head].
  change (negb (String.eqb "" "")) with false. cbv iota.
  assert ((1 <=? year t) && (1 <=? month t) && (month t <=? 12) && (1 <=? day t) &&
          (day t <=? days_in_month (year t) (month t)) = true) as ->; [|reflexivity].
  rewrite !andb_true_iff, !Z.leb_le. lia.
Qed.

(** X25.  An expired record whose [expiry_date] is the ISO string of a
    calendar day (as [strftime('%Y-%m-%d')] writes it) is read back as
    that day by the purge: the record is within retention exactly while
    today is before that day + 30 days. *)
Theorem iso_date_retention (e : datetime) (today_date : instant) (it : item) :
  valid_date e ->
  it !! "expiry_date" = Some (PStr (strftime_ymd e)) ->
  toordinal e + 30 <= MAXORDINAL ->
  within_retention today_date it = Ok (today_date.1 <? toordinal e + 30).
Proof.
  intros He Hv Hmax. rewrite (within_retention_dated _ _ _ Hv).
  rewrite (strptime_strftime e He). simpl.
  pose proof (strptime_ordinal_pos _ _ (strptime_strftime e He)) as Hpos. simpl in Hpos.
  unfold add_days. simpl.
  assert ((1 <=? toordinal e + 30) && (toordinal e + 30 <=? MAXORDINAL) = true) as ->;
    [|reflexivity].
  rewrite andb_true_iff, !Z.leb_le. lia.
Qed.

Lemma iso_date_retention_witness :
  let e := mkDatetime 2026 10 4 0%N in
  let it : item := <["expiry_date" := PStr "2026-10-04"]> ∅ in
  let today := to_instant (mkDatetime 2026 11 3 1%N) in
  valid_date e /\
  it !! "expiry_date" = Some (PStr (strftime_ymd e)) /\
  toordinal e + 30 <= MAXORDINAL /\
  within_retention today it = Ok false /\
  within_retention (today.1 - 1, today.2) it = Ok true.
Proof.
  intros e it today.
  assert (valid_date e) as He by (vm_compute; intuition discriminate).
  assert (it !! "expiry_date" = Some (PStr (strftime_ymd e))) as Hv by reflexivity.
  assert (toordinal e + 30 <= MAXORDINAL) as Hmax by (vm_compute; discriminate).
  split; [exact He|]. split; [exact Hv|]. split; [exact Hmax|]. split.
  - rewrite (iso_date_retention e today it He Hv Hmax). reflexivity.
  - rewrite (iso_date_retention e (today.1 - 1, today.2) it He Hv Hmax). reflexivity.
Defined.

Lemma strftime_nonempty t : String.eqb (strftime_ymd t) "" = false.
Proof. reflexivity. Qed.

(** X24.  The fast path of pipeline 1 is right on ISO dates: a fresh
    record whose [expiry_date] is the ISO string of a calendar day is
    classified as expired exactly when that day is before today (and the
    comparison does not raise). *)
Theorem iso_date_archived (e t : datetime) (it : item) :
  valid_date e -> valid_date t ->
  it !! "expiry_date" = Some (PStr (strftime_ymd e)) ->
  (exists b, is_expired (strftime_ymd t) it = Ok b) /\
  (is_expired (strftime_ymd t) it = Ok true <-> earlier e t).
Proof.
  intros He Ht Hv.
  assert (is_expired (strftime_ymd t) it
          = Ok (String.ltb (strftime_ymd e) (strftime_ymd t))) as ->.
  { unfold is_expired, get, getitem. rewrite Hv. cbn [py_truthy].
    rewrite strftime_nonempty. reflexivity. }
  split; [by eexists|].
  rewrite <- (iso_string_order e t He Ht).
  split; [by intros [= ->] | by intros ->].
Qed.

Lemma iso_date_archived_witness :
  let e := mkDatetime 2026 11 2 0%N in
  let t := mkDatetime 2026 11 3 0%N in
  let it : item := <["expiry_date" := PStr "2026-11-02"]> ∅ in
  valid_date e /\ valid_date t /\
  it !! "expiry_date" = Some (PStr (strftime_ymd e)) /\
  (is_expired (strftime_ymd t) it = Ok true <-> earlier e t).
Proof.
  intros e t it.
  assert (valid_date e) as He by (vm_compute; intuition discriminate).
  assert (valid_date t) as Ht by (vm_compute; intuition discriminate).
  assert (it !! "expiry_date" = Some (PStr (strftime_ymd e))) as Hv by reflexivity.
  split; [exact He|]. split; [exact Ht|]. split; [exact Hv|].
  exact (proj2 (iso_date_archived e t it He Ht Hv)).
Defined.

Lemma get_categories_returns_witness :
  let snacks : item :=
    <["name" := PStr "Snacks"]> (<["owner" := PStr "ann"]> ∅) in
  let broken : item := <["owner" := PStr "bob"]> ∅ in
  let s := mkStore Missing Missing Missing (Parsed [broken; snacks]) in
  intact (categories_json s) = true /\
  Forall (named "ann") (load [] (categories_json s)) /\
  exists cats, get_categories "ann" s = Ok cats.
Proof.
  intros snacks broken s.
  assert (intact (categories_json s) = true) as Hi by reflexivity.
  assert (Forall (named "ann") (load [] (categories_json s))) as H.
  { repeat constructor; intros Ho; [discriminate Ho | eexists; reflexivity]. }
  split; [exact Hi|]. split; [exact H|].
  exact (get_categories_returns "ann" s Hi H).
Defined.

(** * The classification of a call, end to end *)









